(** * secondlife.cli.utils: cell selection helpers

    A shallow embedding of [lib/python/secondlife/cli/utils.py] and the
    properties of its five entry points: [cell_identifiers],
    [include_cell], [selected_cells], [measurement_ts] and the argparse
    action [AddSet].

    Conventions of the embedding.
    - A Python [str] is a [string]; a character is its code point, which
      restricts the model to code points below 256.
    - A Python call either returns or raises: [outcome].
    - Objects that the module mutates or may alias (the metadata
      dictionary, its copy, the destination set of [AddSet]) live in an
      explicit store indexed by references; values kept inside a document
      are immutable trees.
    - A generator is modelled by the list of items it yields when it is
      run to exhaustion, together with how the run ended. *)

From stdpp Require Import gmap strings list fin_maps.
From Stdlib Require Import ZArith Ascii.

#[local] Set Warnings "-register-all,-clear-no-such-hyp".
#[local] Open Scope string_scope.
#[local] Open Scope list_scope.

(** ** Python values and exceptions *)

(** The exceptions the module can meet.  [SystemExit] and
    [KeyboardInterrupt] derive from [BaseException] only, the others from
    [Exception]; the difference matters to [except Exception]. *)
Inductive exn :=
| NameError (name : string)
| TypeError
| AttributeError
| StopIteration
| ValueError (msg : string)
| OSError (msg : string)
| RuntimeError (msg : string)
| SystemExit (code : Z)
| KeyboardInterrupt.

Definition is_Exception (e : exn) : bool :=
  match e with
  | SystemExit _ | KeyboardInterrupt => false
  | _ => true
  end.

Inductive outcome (A : Type) :=
| Ret (a : A)
| Raise (e : exn).
Arguments Ret {A} a.
Arguments Raise {A} e.

(** JSON-like values as Python holds them, plus the [set] of strings used
    for tags.  A float is kept as its IEEE-754 bit pattern. *)
Inductive value :=
| VNone
| VBool (b : bool)
| VInt (n : Z)
| VFloat (bits : Z)
| VStr (s : string)
| VList (l : list value)
| VSet (s : gset string)
| VDict (d : gmap string value).

(** [bool(v)]: the truth value Python gives to [v] in a condition. *)
Definition truthy (v : value) : bool :=
  match v with
  | VNone => false
  | VBool b => b
  | VInt n => negb (n =? 0)%Z
  | VFloat bits => negb ((bits =? 0)%Z || (bits =? 2 ^ 63)%Z)
  | VStr s => negb (String.eqb s "")
  | VList l => negb (bool_decide (l = []))
  | VSet s => negb (bool_decide (s = ∅))
  | VDict d => negb (bool_decide (d = ∅))
  end.

(** [json.dumps] accepts a value exactly when no [set] occurs in it. *)
Fixpoint serializable (v : value) : bool :=
  match v with
  | VSet _ => false
  | VList l => forallb serializable l
  | VDict d => map_fold (fun _ x acc => serializable x && acc) true d
  | _ => true
  end.

(** ** cell_identifiers *)

(** [str.isspace] on one character (code points below 256). *)
Definition isspace (c : ascii) : bool :=
  let n := nat_of_ascii c in
  ((9 <=? n) && (n <=? 13) || (28 <=? n) && (n <=? 32)
   || (n =? 133) || (n =? 160))%nat.

Fixpoint lstrip (s : string) : string :=
  match s with
  | String c rest => if isspace c then lstrip rest else s
  | EmptyString => EmptyString
  end.

Fixpoint rstrip (s : string) : string :=
  match s with
  | String c rest =>
      match rstrip rest with
      | EmptyString => if isspace c then EmptyString else String c EmptyString
      | r => String c r
      end
  | EmptyString => EmptyString
  end.

(** [str.strip()] *)
Definition strip (s : string) : string := rstrip (lstrip s).

Definition newline : string := String (ascii_of_nat 10) EmptyString.

(** The lines a text stream delivers for a given content: each line keeps
    its terminating newline, the last one may lack it. *)
Fixpoint readlines_from (cur : string) (s : string) : list string :=
  match s with
  | EmptyString => if String.eqb cur "" then [] else [cur]
  | String c rest =>
      let cur' := cur +:+ String c EmptyString in
      if Ascii.eqb c (ascii_of_nat 10) then cur' :: readlines_from "" rest
      else readlines_from cur' rest
  end.
Definition readlines (s : string) : list string := readlines_from "" s.

(** The part of the configuration object that the module reads.  The
    compiled query is the function from the input document to the stream
    of its outputs. *)
Inductive jq_item :=
| Out (v : value)
| Err (msg : string).

Record config := {
  identifiers : list string;
  all_cells : bool;
  tags : gset string;
  metadata_jq : option (value -> list jq_item);
  timestamp : string
}.

(** [for line in sys.stdin]: the inner loop of [cell_identifiers]. *)
Fixpoint stdin_identifiers (lines : list string) : list string :=
  match lines with
  | [] => []
  | line :: rest =>
      let line := strip line in
      if (String.length line =? 0)%nat then stdin_identifiers rest
      else line :: stdin_identifiers rest
  end.

(** [for id in config.identifiers]: yields, and what is left of standard
    input.  The inner loop reads standard input to its end. *)
Fixpoint identifiers_loop (ids : list string) (stdin : list string)
  : list string * list string :=
  match ids with
  | [] => ([], stdin)
  | id :: rest =>
      if String.eqb id "-" then
        let '(ys, stdin') := identifiers_loop rest [] in
        (stdin_identifiers stdin ++ ys, stdin')
      else
        let '(ys, stdin') := identifiers_loop rest stdin in
        (id :: ys, stdin')
  end.

Definition cell_identifiers (cfg : config) (stdin : list string)
  : list string * list string :=
  identifiers_loop (identifiers cfg) stdin.

(** ** The object store and the effects of a call *)

Definition path := string.
Definition loc := positive.

(** The object [load_metadata], [find_cell] and [new_cell] hand out: its
    [data] attribute refers to the document dictionary. *)
Record metadata := { data : loc }.

(** What a name of the module namespace is bound to. *)
Inductive pyobject :=
| PyModule (name : string)
| PyFunction (name : string)
| PyClass (name : string)
| PyLogger
| PyStr (s : string).

Inductive level := Debug | Info | Error | Fatal.
Record log_record := { lvl : level; event : string; log_path : option path }.

(** [heap]: the mutable objects; [logs]: the records emitted so far;
    [created]: the arguments [new_cell] was called with so far. *)
Record world := {
  heap : gmap loc value;
  logs : list log_record;
  created : list pyobject
}.

Definition M (A : Type) : Type := world -> outcome A * world.

#[global] Instance M_ret : MRet M := fun A a w => (Ret a, w).
#[global] Instance M_bind : MBind M := fun A B f m w =>
  match m w with
  | (Ret a, w') => f a w'
  | (Raise e, w') => (Raise e, w')
  end.

Definition lift {A} (o : outcome A) : M A := fun w => (o, w).

Definition set_heap (h : gmap loc value) (w : world) : world :=
  {| heap := h; logs := logs w; created := created w |}.

(** The dictionary a reference denotes.  In Python a reference always
    denotes an object; on a store that lacks it the model reads the empty
    dictionary. *)
Definition dict_at (w : world) (l : loc) : gmap string value :=
  match heap w !! l with
  | Some (VDict d) => d
  | _ => ∅
  end.

Definition read (l : loc) : M (gmap string value) :=
  fun w => (Ret (dict_at w l), w).

Definition alloc (v : value) : M loc :=
  fun w => let l := fresh (dom (heap w)) in (Ret l, set_heap (<[l := v]> (heap w)) w).

(** [copy.copy(d)] for a dictionary: a new object with the same items. *)
Definition copy_copy (l : loc) : M loc :=
  fun w => alloc (VDict (dict_at w l)) w.

(** [d[k] = v] *)
Definition setitem (l : loc) (k : string) (v : value) : M unit :=
  fun w => (Ret tt, set_heap (<[l := VDict (<[k := v]> (dict_at w l))]> (heap w)) w).

Definition log (lv : level) (ev : string) (p : option path) : M unit :=
  fun w => (Ret tt, {| heap := heap w;
                       logs := logs w ++ [{| lvl := lv; event := ev; log_path := p |}];
                       created := created w |}).

(** ** Metadata documents *)

Fixpoint segments_from (cur : string) (s : string) : list string :=
  match s with
  | EmptyString => [cur]
  | String c rest =>
      if Ascii.eqb c "/" then cur :: segments_from "" rest
      else segments_from (cur +:+ String c EmptyString) rest
  end.

(** The keys a path expression names, from the root down: ["/a/b"] names
    ["a"] then ["b"]; the empty path names the document itself. *)
Definition path_segments (p : string) : option (list string) :=
  match p with
  | EmptyString => Some []
  | String c rest => if Ascii.eqb c "/" then Some (segments_from "" rest) else None
  end.

Fixpoint descend (segs : list string) (v : value) : option value :=
  match segs with
  | [] => Some v
  | k :: rest =>
      match v with
      | VDict d => match d !! k with Some x => descend rest x | None => None end
      | _ => None
      end
  end.

(** Modelled from the spec: the [get] method of the metadata class of
    [secondlife.celldb], which is not part of the sources at hand.  The
    spec describes the document as "a JSON-like mapping queryable by path
    expressions (e.g. /tags, /id), with a default= fallback on missing
    keys".  A call without [default=] passes [VNone]. *)
Definition metadata_get (d : gmap string value) (p : string) (default : value) : value :=
  match path_segments p with
  | Some segs => match descend segs (VDict d) with Some v => v | None => default end
  | None => default
  end.

(** ** include_cell *)

(** [s <= v] with a set on the left: defined when [v] is a set too. *)
Definition set_le (s : gset string) (v : value) : outcome bool :=
  match v with
  | VSet c => Ret (bool_decide (s ⊆ c))
  | _ => Raise TypeError
  end.

Fixpoint chars (s : string) : list value :=
  match s with
  | EmptyString => []
  | String c rest => VStr (String c EmptyString) :: chars rest
  end.

(** [list(v)]: the items of an iterable, in its iteration order. *)
Definition py_list (v : value) : outcome value :=
  match v with
  | VSet s => Ret (VList (VStr <$> elements s))
  | VList l => Ret (VList l)
  | VStr s => Ret (VList (chars s))
  | VDict d => Ret (VList (VStr <$> (map_to_list d).*1))
  | _ => Raise TypeError
  end.

(** [q.input(doc).first()] of the jq binding.  [input] serialises the
    document with [json.dumps], which rejects a set; [first] is
    [next(iter(...))] over the outputs of the program: it returns the
    first output, fails as the program does when that fails before any
    output, and raises [StopIteration] when there is no output. *)
Definition jq_first (q : value -> list jq_item) (doc : value) : outcome value :=
  if serializable doc then
    match q doc with
    | [] => Raise StopIteration
    | Out v :: _ => Ret v
    | Err msg :: _ => Raise (ValueError msg)
    end
  else Raise TypeError.

Definition include_cell (p : path) (m : metadata) (cfg : config) : M bool :=
  d ← read (data m);
  le ← lift (set_le (tags cfg) (metadata_get d "/tags" (VSet ∅)));
  if negb le then mret false
  else
    match metadata_jq cfg with
    | Some q =>
        m_copy ← copy_copy (data m);
        c ← read m_copy;
        _ ← match c !! "tags" with
            | Some t => l ← lift (py_list t); setitem m_copy "tags" l
            | None => mret tt
            end;
        doc ← read m_copy;
        res ← lift (jq_first q (VDict doc));
        _ ← log Debug "jq query result" (Some p);
        match res with
        | VBool true => mret true
        | _ => mret false
        end
    | None => mret true
    end.

(** ** selected_cells *)

(** The surroundings of a run: the files the recursive glob finds, in the
    order it produces them, what parsing each gives, the answers of the
    cell store, and the lines standard input holds. *)
Record environment := {
  glob_meta : list path;
  load_file : path -> outcome (gmap string value);
  lookup_cell : string -> option (path * gmap string value);
  create_cell : pyobject -> path * gmap string value;
  stdin_lines : list string
}.

(** [load_metadata(path)]: a fresh metadata object, or the failure. *)
Definition load_metadata (env : environment) (p : path) : M metadata :=
  d ← lift (load_file env p);
  l ← alloc (VDict d);
  mret {| data := l |}.

(** [find_cell(id)]: [None] stands for the pair [(None, None)]. *)
Definition find_cell (env : environment) (id : string) : M (option (path * metadata)) :=
  match lookup_cell env id with
  | Some (p, d) => l ← alloc (VDict d); mret (Some (p, {| data := l |}))
  | None => mret None
  end.

Definition new_cell (env : environment) (id : pyobject) : M (path * metadata) :=
  fun w =>
    let '(p, d) := create_cell env id in
    let w1 := {| heap := heap w; logs := logs w; created := created w ++ [id] |} in
    (l ← alloc (VDict d); mret (p, {| data := l |})) w1.

(** The names bound at module level, by its imports and definitions. *)
Definition module_globals : list (string * pyobject) :=
  [ ("parsedatetime", PyModule "parsedatetime"); ("time", PyModule "time");
    ("sys", PyModule "sys"); ("get_logger", PyFunction "get_logger");
    ("Path", PyClass "Path"); ("find_cell", PyFunction "find_cell");
    ("load_metadata", PyFunction "load_metadata");
    ("new_cell", PyFunction "new_cell"); ("jq", PyModule "jq");
    ("copy", PyModule "copy"); ("log", PyLogger);
    ("cell_identifiers", PyFunction "cell_identifiers");
    ("include_cell", PyFunction "include_cell");
    ("selected_cells", PyFunction "selected_cells");
    ("measurement_ts", PyFunction "measurement_ts");
    ("argparse", PyModule "argparse"); ("AddSet", PyClass "AddSet") ].

(** Reading a name that the function does not bind itself.  (The lookup
    goes on to the builtins, left out here: the only name read this way
    that is no module global is [line], and no builtin has that name.) *)
Definition load_global (name : string) : outcome pyobject :=
  match List.find (fun b => String.eqb (fst b) name) module_globals with
  | Some b => Ret (snd b)
  | None => Raise (NameError name)
  end.

Definition item : Type := path * metadata.

(** The body of the [try] block of the walk, up to the decision to
    yield. *)
Definition walk_body (env : environment) (cfg : config) (p : path) : M (option item) :=
  m ← load_metadata env p;
  d ← read (data m);
  if truthy (metadata_get d "/id" VNone) then
    _ ← log Debug "cell found" (Some p);
    inc ← include_cell p m cfg;
    mret (if inc : bool then Some (p, m) else None)
  else mret None.

(** [for path in path.glob('**/meta.json')]: the items yielded, how the
    loop ended, and the world it leaves. *)
Fixpoint walk_loop (env : environment) (cfg : config) (paths : list path) (w : world)
  : list item * outcome unit * world :=
  match paths with
  | [] => ([], Ret tt, w)
  | p :: rest =>
      match walk_body env cfg p w with
      | (Ret it, w1) =>
          let '(ys, r, w2) := walk_loop env cfg rest w1 in
          (option_list it ++ ys, r, w2)
      | (Raise e, w1) =>
          if is_Exception e then
            walk_loop env cfg rest (snd (log Error "cannot load metadata" (Some p) w1))
          else ([], Raise e, w1)
      end
  end.

(** The body of the loop over the identifiers, up to the decision to
    yield.  [line] is not bound in [selected_cells]. *)
Definition resolve_body (env : environment) (cfg : config) (id : string) : M (option item) :=
  found ← find_cell env id;
  pm ← match found with
       | Some pm => mret pm
       | None => line ← lift (load_global "line"); new_cell env line
       end;
  _ ← log Debug "cell found" (Some (fst pm));
  inc ← include_cell (fst pm) (snd pm) cfg;
  mret (if inc : bool then Some pm else None).

(** [for id in cell_identifiers(config=config)] *)
Fixpoint resolve_loop (env : environment) (cfg : config) (ids : list string) (w : world)
  : list item * outcome unit * world :=
  match ids with
  | [] => ([], Ret tt, w)
  | id :: rest =>
      match resolve_body env cfg id w with
      | (Ret it, w1) =>
          let '(ys, r, w2) := resolve_loop env cfg rest w1 in
          (option_list it ++ ys, r, w2)
      | (Raise e, w1) => ([], Raise e, w1)
      end
  end.

(** The branch taken when [config.all_cells] is set. *)
Definition walk_branch (env : environment) (cfg : config) (w : world)
  : list item * outcome unit * world :=
  if all_cells cfg then
    walk_loop env cfg (glob_meta env) (snd (log Info "searching for cells" (Some ".") w))
  else ([], Ret tt, w).

(** How a generator ends for its consumer: a [StopIteration] that leaves
    the generator body reaches the consumer as a [RuntimeError]. *)
Definition generator_end (r : outcome unit) : outcome unit :=
  match r with
  | Raise StopIteration => Raise (RuntimeError "generator raised StopIteration")
  | _ => r
  end.

Definition selected_cells (env : environment) (cfg : config) (w : world)
  : list item * outcome unit * world :=
  match walk_branch env cfg w with
  | (ys1, Ret _, w1) =>
      let '(ys2, r, w2) :=
        resolve_loop env cfg (fst (cell_identifiers cfg (stdin_lines env))) w1 in
      (ys1 ++ ys2, generator_end r, w2)
  | (ys1, Raise e, w1) => (ys1, generator_end (Raise e), w1)
  end.

(** ** measurement_ts *)

(** The context object of the date parser: bit flags saying which parts
    of a date and time the text gave. *)
Record pdtContext := { accuracy : Z }.

Definition ACU_YEAR : Z := Z.shiftl 1 0.
Definition ACU_MONTH : Z := Z.shiftl 1 1.
Definition ACU_WEEK : Z := Z.shiftl 1 2.
Definition ACU_DAY : Z := Z.shiftl 1 3.
Definition ACU_NOW : Z := Z.shiftl 1 8.
Definition ACU_DATE : Z :=
  Z.lor (Z.lor ACU_YEAR ACU_MONTH) (Z.lor ACU_WEEK ACU_DAY).

Definition hasDate (c : pdtContext) : bool :=
  negb (Z.land (accuracy c) ACU_DATE =? 0)%Z.

(** [c1 != c2]: contexts compare by their accuracy. *)
Definition context_ne (c1 c2 : pdtContext) : bool :=
  negb (accuracy c1 =? accuracy c2)%Z.

Record struct_time := {
  tm_year : Z; tm_mon : Z; tm_mday : Z; tm_hour : Z; tm_min : Z;
  tm_sec : Z; tm_wday : Z; tm_yday : Z; tm_isdst : Z
}.

(** The date parser and the local clock: [parse] is
    [Calendar().parse(text, version=VERSION_CONTEXT_STYLE)], [mktime] is
    [time.mktime], whose result for a [struct_time] is a whole number of
    seconds. *)
Record timelib := {
  parse : string -> struct_time * pdtContext;
  mktime : struct_time -> Z
}.

Definition measurement_ts (tl : timelib) (cfg : config) : M Z :=
  let '(time_parsed, context) := parse tl (timestamp cfg) in
  _ ← log Debug "parsed timestamp" None;
  if negb (hasDate context) && context_ne context {| accuracy := ACU_NOW |} then
    _ ← log Fatal "no date in timestamp" None;
    lift (Raise (SystemExit 1))
  else mret (mktime tl time_parsed).

(** ** AddSet *)

(** An argparse action knows the attribute it fills; a namespace binds
    attribute names to objects of the store. *)
Record action := { dest : string }.

(** [AddSet.__call__(self, parser, namespace, values)]:
    [getattr(namespace, self.dest).add(values)].  Only a set has an [add]
    method; [values] is the string of one occurrence of the flag. *)
Definition AddSet_call (self : action) (namespace : gmap string loc) (values : string)
  : M unit :=
  fun w =>
    match namespace !! dest self with
    | None => (Raise AttributeError, w)
    | Some l =>
        match heap w !! l with
        | Some (VSet s) => (Ret tt, set_heap (<[l := VSet ({[values]} ∪ s)]> (heap w)) w)
        | _ => (Raise AttributeError, w)
        end
    end.

(** The parser calls the action once per occurrence of the flag, in
    command-line order. *)
Fixpoint AddSet_occurrences (self : action) (namespace : gmap string loc)
    (occurrences : list string) : M unit :=
  match occurrences with
  | [] => mret tt
  | v :: rest => _ ← AddSet_call self namespace v; AddSet_occurrences self namespace rest
  end.

(** ** Notions used to state the properties *)

Fixpoint all_space (s : string) : bool :=
  match s with
  | EmptyString => true
  | String c rest => isspace c && all_space rest
  end.

Definition first_char (s : string) : option ascii :=
  match s with
  | String c _ => Some c
  | EmptyString => None
  end.

Fixpoint last_char (s : string) : option ascii :=
  match s with
  | EmptyString => None
  | String c EmptyString => Some c
  | String _ rest => last_char rest
  end.

Definition no_space (o : option ascii) : bool :=
  match o with
  | Some c => negb (isspace c)
  | None => true
  end.

(** The identifiers a run of lines stands for: each line trimmed, the
    blank ones dropped. *)
Definition trimmed_nonblank (lines : list string) : list string :=
  filter (fun s => s ≠ "") (strip <$> lines).

(** The lines standard input still holds for an identifier, given the
    identifiers handled before it: all of them, or none once a marker has
    read the stream to its end. *)
Definition lines_left (before : list string) (stdin : list string) : list string :=
  if bool_decide ("-" ∈ before) then [] else stdin.

(** What the identifier at position [k] contributes. *)
Definition expansion (ids stdin : list string) (k : nat) (id : string) : list string :=
  if bool_decide (id = "-") then trimmed_nonblank (lines_left (take k ids) stdin)
  else [id].

(** The tag set of a document: empty without a [tags] entry, undefined
    when the entry is no set. *)
Definition cell_tags (d : gmap string value) : option (gset string) :=
  match d !! "tags" with
  | None => Some ∅
  | Some (VSet c) => Some c
  | Some _ => None
  end.

(** The document with its tag set turned into a list. *)
Definition listified (d : gmap string value) : gmap string value :=
  match d !! "tags" with
  | Some (VSet s) => <["tags" := VList (VStr <$> elements s)]> d
  | _ => d
  end.

(** The content of the copy handed to the query. *)
Definition copy_for_query (d : gmap string value) : outcome (gmap string value) :=
  match d !! "tags" with
  | Some t =>
      match py_list t with
      | Ret l => Ret (<["tags" := l]> d)
      | Raise e => Raise e
      end
  | None => Ret d
  end.

(** What [include_cell] answers, as a function of the document alone
    (lemma [include_cell_fst]). *)
Definition verdict (cfg : config) (d : gmap string value) : outcome bool :=
  match set_le (tags cfg) (metadata_get d "/tags" (VSet ∅)) with
  | Raise e => Raise e
  | Ret false => Ret false
  | Ret true =>
      match metadata_jq cfg with
      | None => Ret true
      | Some q =>
          match copy_for_query d with
          | Raise e => Raise e
          | Ret c =>
              match jq_first q (VDict c) with
              | Ret (VBool true) => Ret true
              | Ret _ => Ret false
              | Raise e => Raise e
              end
          end
      end
  end.

Definition yields_of (run : list item * outcome unit * world) : list item := run.1.1.
Definition ending_of (run : list item * outcome unit * world) : outcome unit := run.1.2.
Definition world_of (run : list item * outcome unit * world) : world := run.2.

Definition has_id (d : gmap string value) : bool :=
  truthy (metadata_get d "/id" VNone).

Definition passes (cfg : config) (d : gmap string value) : bool :=
  match verdict cfg d with
  | Ret true => true
  | _ => false
  end.

(** A file of the walk gives a result: it loads, has an id and passes. *)
Definition selected (env : environment) (cfg : config) (p : path) : bool :=
  match load_file env p with
  | Ret d => has_id d && passes cfg d
  | Raise _ => false
  end.

Definition load_error (p : path) : log_record :=
  {| lvl := Error; event := "cannot load metadata"; log_path := Some p |}.

(** The world once a document has been loaded into a fresh object, and
    once the cell has been reported as found. *)
Definition loaded (w : world) (d : gmap string value) : world :=
  set_heap (<[fresh (dom (heap w)) := VDict d]> (heap w)) w.

Definition found_world (w : world) (p : path) (d : gmap string value) : world :=
  {| heap := <[fresh (dom (heap w)) := VDict d]> (heap w);
     logs := logs w ++ [{| lvl := Debug; event := "cell found"; log_path := Some p |}];
     created := created w |}.

Definition logged_failure (p : path) (w : world) : world :=
  snd (log Error "cannot load metadata" (Some p) w).

Definition now_context : pdtContext := {| accuracy := ACU_NOW |}.

(** ** Sample inputs *)

Definition empty_world : world := {| heap := ∅; logs := []; created := [] |}.

Definition first_cell : metadata := {| data := 1%positive |}.

Definition world_with (d : gmap string value) : world :=
  {| heap := {[ 1%positive := VDict d ]}; logs := []; created := [] |}.

Definition tagged (ts : gset string) : gmap string value :=
  <["tags" := VSet ts]> (<["id" := VStr "c1"]> ∅).

Definition no_id_doc : gmap string value := {[ "tags" := VSet {["prod"]} ]}.

Definition prod_config : config :=
  {| identifiers := []; all_cells := false; tags := {["prod"]};
     metadata_jq := None; timestamp := "now" |}.

Definition walk_config : config :=
  {| identifiers := []; all_cells := true; tags := {["prod"]};
     metadata_jq := None; timestamp := "now" |}.

Definition stdin_config : config :=
  {| identifiers := ["-"]; all_cells := false; tags := ∅;
     metadata_jq := None; timestamp := "now" |}.

Definition unknown_config : config :=
  {| identifiers := ["x"]; all_cells := false; tags := ∅;
     metadata_jq := None; timestamp := "now" |}.

Definition query_config (q : value -> list jq_item) : config :=
  {| identifiers := []; all_cells := false; tags := ∅;
     metadata_jq := Some q; timestamp := "now" |}.

(** A query without output (jq's [empty]) and one with a fixed output. *)
Definition no_output : value -> list jq_item := fun _ => [].
Definition says (v : value) : value -> list jq_item := fun _ => [Out v].

Definition sample_input : string :=
  "a" +:+ newline +:+ newline +:+ " b " +:+ newline.

(** Three metadata files, the second of which does not parse. *)
Definition three_files : environment :=
  {| glob_meta := ["a/meta.json"; "b/meta.json"; "c/meta.json"];
     load_file := fun p =>
       if String.eqb p "b/meta.json" then Raise (ValueError "malformed JSON")
       else Ret (tagged {["prod"]});
     lookup_cell := fun _ => None;
     create_cell := fun _ => ("new/meta.json", ∅);
     stdin_lines := [] |}.

(** A store that knows the cell [x], whose document has no id. *)
Definition store_with_x : environment :=
  {| glob_meta := ["x/meta.json"];
     load_file := fun _ => Ret no_id_doc;
     lookup_cell := fun id =>
       if String.eqb id "x" then Some ("x/meta.json", no_id_doc) else None;
     create_cell := fun _ => ("new/meta.json", ∅);
     stdin_lines := [] |}.

Definition tag_action : action := {| dest := "tags" |}.
Definition tag_namespace : gmap string loc := {[ "tags" := 1%positive ]}.
Definition tag_world : world :=
  {| heap := {[ 1%positive := VSet ∅ ]}; logs := []; created := [] |}.

(** ** Further notions and sample inputs *)

(** The path an identifier resolves to, when the store knows the cell and
    the filter accepts its document. *)
Definition resolved_path (env : environment) (cfg : config) (id : string) : option path :=
  match lookup_cell env id with
  | Some (p, d) => if passes cfg d then Some p else None
  | None => None
  end.

(** The store knows the identifier and the filter answers for its
    document. *)
Definition answered (env : environment) (cfg : config) (id : string) : Prop :=
  ∃ p d b, lookup_cell env id = Some (p, d) ∧ verdict cfg d = Ret b.

Definition listed_config : config :=
  {| identifiers := ["c2"; "c1"; "c2"]; all_cells := false; tags := ∅;
     metadata_jq := None; timestamp := "now" |}.

Definition mixed_config : config :=
  {| identifiers := ["c1"; "-"; "c2"; "-"]; all_cells := false; tags := ∅;
     metadata_jq := None; timestamp := "now" |}.

(** A document whose tags were left as a list. *)
Definition listed_tags_doc : gmap string value :=
  {[ "id" := VStr "c1"; "tags" := VList [VStr "prod"] ]}.

(** A document whose id is the empty string. *)
Definition blank_id_doc : gmap string value :=
  {[ "id" := VStr ""; "tags" := VSet {["prod"]} ]}.

Definition blank_id_file : environment :=
  {| glob_meta := ["a/meta.json"];
     load_file := fun _ => Ret blank_id_doc;
     lookup_cell := fun _ => None;
     create_cell := fun _ => ("new/meta.json", ∅);
     stdin_lines := [] |}.

Definition one_file : environment :=
  {| glob_meta := ["a/meta.json"];
     load_file := fun _ => Ret (tagged {["prod"]});
     lookup_cell := fun _ => None;
     create_cell := fun _ => ("new/meta.json", ∅);
     stdin_lines := [] |}.

(** A walk with a query that produces no result. *)
Definition silent_walk_config : config :=
  {| identifiers := []; all_cells := true; tags := ∅;
     metadata_jq := Some no_output; timestamp := "now" |}.

(** Three files, the second of which is being read when the user
    interrupts. *)
Definition interrupted_files : environment :=
  {| glob_meta := ["a/meta.json"; "b/meta.json"; "c/meta.json"];
     load_file := fun p =>
       if String.eqb p "b/meta.json" then Raise KeyboardInterrupt
       else Ret (tagged {["prod"]});
     lookup_cell := fun _ => None;
     create_cell := fun _ => ("new/meta.json", ∅);
     stdin_lines := [] |}.

Definition busy_config : config :=
  {| identifiers := ["x"]; all_cells := true; tags := ∅;
     metadata_jq := Some (says (VBool true)); timestamp := "now" |}.

(** A store that knows every cell, and three lines on standard input. *)
Definition two_cells : environment :=
  {| glob_meta := [];
     load_file := fun _ => Raise (OSError "no such file");
     lookup_cell := fun id =>
       if String.eqb id "c1" then Some ("c1/meta.json", tagged {["prod"]})
       else Some ("other/meta.json", tagged {["web"]});
     create_cell := fun _ => ("new/meta.json", ∅);
     stdin_lines := ["c1"; " c2 "; "c1"] |}.

Definition stdin_prod_config : config :=
  {| identifiers := ["-"]; all_cells := false; tags := {["prod"]};
     metadata_jq := None; timestamp := "now" |}.

(** A destination left at [None]. *)
Definition none_world : world :=
  {| heap := {[ 1%positive := VNone ]}; logs := []; created := [] |}.

Definition second_namespace : gmap string loc :=
  {[ "tags" := 1%positive; "verbose" := 2%positive ]}.

(** ** Trimming and the identifier source *)

Lemma append_String c (s t : string) : String c s +:+ t = String c (s +:+ t).
Proof. reflexivity. Qed.

Lemma append_empty (t : string) : "" +:+ t = t.
Proof. reflexivity. Qed.

Lemma lstrip_spec s :
  ∃ l, s = l +:+ lstrip s ∧ all_space l = true ∧ no_space (first_char (lstrip s)) = true.
Proof.
  induction s as [|c s IH]; simpl.
  - exists "". auto.
  - destruct (isspace c) eqn:Hc.
    + destruct IH as (l & Hl & Hs & Hf). exists (String c l). simpl.
      rewrite Hc, Hs. split; [by rewrite append_String, <- Hl|done].
    + exists "". simpl. rewrite Hc. done.
Qed.

Lemma rstrip_spec s :
  ∃ r, s = rstrip s +:+ r ∧ all_space r = true
       ∧ no_space (last_char (rstrip s)) = true
       ∧ (rstrip s ≠ "" → first_char (rstrip s) = first_char s).
Proof.
  induction s as [|c s IH]; simpl.
  - exists "". auto.
  - destruct IH as (r & Hr & Hs & Hl & Hf).
    destruct (rstrip s) as [|c' t] eqn:Ht.
    + rewrite append_empty in Hr. subst r. destruct (isspace c) eqn:Hc.
      * exists (String c s). simpl. by rewrite Hc, Hs.
      * exists s. simpl. by rewrite Hc.
    + exists r. rewrite append_String, <- Hr. repeat split; done.
Qed.

(** [strip] removes a run of whitespace at each end and nothing else: what
    is left neither starts nor ends with whitespace. *)
Lemma strip_spec s :
  ∃ l r, s = l +:+ strip s +:+ r ∧ all_space l = true ∧ all_space r = true
         ∧ no_space (first_char (strip s)) = true
         ∧ no_space (last_char (strip s)) = true.
Proof.
  unfold strip.
  destruct (lstrip_spec s) as (l & Hl & Hsl & Hf).
  destruct (rstrip_spec (lstrip s)) as (r & Hr & Hsr & Hla & Hfi).
  exists l, r. rewrite <- Hr. repeat split; try done.
  destruct (rstrip (lstrip s)) eqn:E; [done|].
  rewrite Hfi; done.
Qed.

Lemma stdin_identifiers_filter lines :
  stdin_identifiers lines = trimmed_nonblank lines.
Proof.
  unfold trimmed_nonblank.
  induction lines as [|line rest IH]; [done|].
  rewrite fmap_cons, filter_cons. cbn [stdin_identifiers].
  destruct (strip line) eqn:E; cbn [String.length Nat.eqb].
  - rewrite decide_False by auto. done.
  - rewrite decide_True by done. by rewrite IH.
Qed.

Lemma identifiers_loop_spec ids : ∀ before stdin,
  identifiers_loop ids (lines_left before stdin) =
    (concat (imap (fun k id => expansion (before ++ ids) stdin (length before + k) id) ids),
     lines_left (before ++ ids) stdin).
Proof.
  induction ids as [|id rest IH]; intros before stdin.
  - simpl. by rewrite app_nil_r.
  - simpl. specialize (IH (before ++ [id]) stdin).
    rewrite <- app_assoc in IH. simpl in IH.
    assert (Himap : imap (fun k i => expansion (before ++ id :: rest) stdin (length (before ++ [id]) + k) i) rest
                  = imap ((fun k i => expansion (before ++ id :: rest) stdin (length before + k) i) ∘ S) rest).
    { apply imap_ext. intros k x _. simpl. rewrite length_app. simpl. f_equal. lia. }
    rewrite Himap in IH. clear Himap.
    unfold expansion at 1. rewrite Nat.add_0_r, take_app_length.
    destruct (String.eqb_spec id "-") as [->|Hne].
    + rewrite bool_decide_true by done.
      assert (Hnil : [] = lines_left (before ++ ["-"]) stdin).
      { unfold lines_left. rewrite bool_decide_true; [done|]. set_solver. }
      rewrite Hnil at 1. rewrite IH. rewrite stdin_identifiers_filter. done.
    + rewrite bool_decide_false by done.
      assert (Hsame : lines_left before stdin = lines_left (before ++ [id]) stdin).
      { unfold lines_left. erewrite bool_decide_ext; [done|]. set_solver. }
      rewrite Hsame, IH. done.
Qed.

(** C6.  [cell_identifiers] yields, in the order of the configured
    identifiers and without removing duplicates, the identifier itself when
    it is not the marker [-], and for a marker the lines of standard input,
    each trimmed of whitespace and the blank ones dropped (the first marker
    reads the stream to its end, so a later one finds no line left).
    Standard input holding "a", an empty line and " b " gives ["a"; "b"]
    for a single marker. *)
Theorem cell_identifiers_yields (cfg : config) (stdin : list string) :
  cell_identifiers cfg stdin
  = (concat (imap (expansion (identifiers cfg) stdin) (identifiers cfg)),
     lines_left (identifiers cfg) stdin)
  ∧ cell_identifiers stdin_config (readlines sample_input) = (["a"; "b"], []).
Proof.
  split; [|by vm_compute].
  unfold cell_identifiers.
  pose proof (identifiers_loop_spec (identifiers cfg) [] stdin) as H.
  simpl in H. exact H.
Qed.

(** ** The store *)

Ltac run :=
  unfold mbind, M_bind, mret, M_ret, lift, read, copy_copy, alloc, setitem, log;
  simpl.

Lemma dict_at_insert w l d :
  dict_at (set_heap (<[l := VDict d]> (heap w)) w) l = d.
Proof. unfold dict_at. simpl. by rewrite lookup_insert_eq. Qed.

Lemma fresh_loc_unused (h : gmap loc value) l : is_Some (h !! l) → l ≠ fresh (dom h).
Proof.
  intros Hl ->. apply elem_of_dom in Hl. by apply is_fresh in Hl.
Qed.

Lemma set_heap_id w : set_heap (heap w) w = w.
Proof. by destruct w. Qed.

Lemma metadata_get_key d p k default :
  path_segments p = Some [k] →
  metadata_get d p default = match d !! k with Some v => v | None => default end.
Proof. unfold metadata_get. intros ->. simpl. by destruct (d !! k). Qed.

Lemma metadata_get_tags d default :
  metadata_get d "/tags" default = match d !! "tags" with Some v => v | None => default end.
Proof. by apply metadata_get_key. Qed.

Lemma metadata_get_id d default :
  metadata_get d "/id" default = match d !! "id" with Some v => v | None => default end.
Proof. by apply metadata_get_key. Qed.

(** ** include_cell *)

(** The answer of [include_cell] depends on the document only. *)
Lemma include_cell_fst p m cfg w :
  fst (include_cell p m cfg w) = verdict cfg (dict_at w (data m)).
Proof.
  unfold include_cell, verdict. run.
  destruct (set_le _ _) as [[|]|e]; simpl; try done.
  destruct (metadata_jq cfg) as [q|]; simpl; [|done].
  rewrite dict_at_insert. unfold copy_for_query.
  destruct (dict_at w (data m) !! "tags") as [t|] eqn:Ht; simpl.
  - destruct (py_list t) as [l|e]; simpl; [|done].
    set (w1 := set_heap _ w).
    pose proof (dict_at_insert w1 (fresh (dom (heap w))) (<["tags" := l]> (dict_at w1 (fresh (dom (heap w)))))) as E.
    unfold w1 in *. simpl in E. rewrite E. rewrite dict_at_insert.
    destruct (jq_first _ _) as [[]|]; simpl; try done. destruct b; done.
  - rewrite dict_at_insert.
    destruct (jq_first _ _) as [[]|]; simpl; try done. destruct b; done.
Qed.

Lemma include_cell_heap_other p m cfg w l :
  l ≠ fresh (dom (heap w)) →
  heap (snd (include_cell p m cfg w)) !! l = heap w !! l.
Proof.
  intros Hl. unfold include_cell. run.
  destruct (set_le _ _) as [[|]|e]; simpl; try done.
  destruct (metadata_jq cfg) as [q|]; simpl; [|done].
  rewrite dict_at_insert.
  destruct (dict_at w (data m) !! "tags") as [t|]; simpl.
  - destruct (py_list t) as [v|e]; simpl; [|by rewrite lookup_insert_ne].
    destruct (jq_first _ _) as [[]|]; simpl;
      try destruct b; simpl; by rewrite !lookup_insert_ne.
  - destruct (jq_first _ _) as [[]|]; simpl;
      try destruct b; simpl; by rewrite !lookup_insert_ne.
Qed.

Lemma include_cell_heap_frame p m cfg w l :
  is_Some (heap w !! l) →
  heap (snd (include_cell p m cfg w)) !! l = heap w !! l.
Proof. intros Hl. by apply include_cell_heap_other, fresh_loc_unused. Qed.

Lemma verdict_tags cfg d C :
  cell_tags d = Some C →
  set_le (tags cfg) (metadata_get d "/tags" (VSet ∅)) = Ret (bool_decide (tags cfg ⊆ C)).
Proof.
  unfold cell_tags. rewrite metadata_get_tags.
  destruct (d !! "tags") as [[]|]; simpl; intros [= <-]; done.
Qed.

Lemma copy_for_query_listified d C :
  cell_tags d = Some C → copy_for_query d = Ret (listified d).
Proof.
  unfold cell_tags, copy_for_query, listified.
  destruct (d !! "tags") as [[]|]; simpl; intros [= <-]; done.
Qed.

Lemma include_cell_created p m cfg w :
  created (snd (include_cell p m cfg w)) = created w.
Proof.
  unfold include_cell. run.
  destruct (set_le _ _) as [[|]|e]; simpl; try done.
  destruct (metadata_jq cfg) as [q|]; simpl; [|done].
  rewrite dict_at_insert.
  destruct (dict_at w (data m) !! "tags") as [t|]; simpl.
  - destruct (py_list t) as [v|e]; simpl; [|done].
    destruct (jq_first _ _) as [[]|]; simpl; try destruct b; done.
  - destruct (jq_first _ _) as [[]|]; simpl; try destruct b; done.
Qed.

Lemma include_cell_logs p m cfg w :
  logs w `prefix_of` logs (snd (include_cell p m cfg w)).
Proof.
  unfold include_cell. run.
  destruct (set_le _ _) as [[|]|e]; simpl; try done.
  destruct (metadata_jq cfg) as [q|]; simpl; [|done].
  rewrite dict_at_insert.
  destruct (dict_at w (data m) !! "tags") as [t|]; simpl.
  - destruct (py_list t) as [v|e]; simpl; [|done].
    destruct (jq_first _ _) as [[]|]; simpl; try destruct b; simpl;
      try done; by apply prefix_app_r.
  - destruct (jq_first _ _) as [[]|]; simpl; try destruct b; simpl;
      try done; by apply prefix_app_r.
Qed.

Lemma include_cell_copy p m cfg w q C :
  metadata_jq cfg = Some q →
  cell_tags (dict_at w (data m)) = Some C →
  tags cfg ⊆ C →
  dict_at (snd (include_cell p m cfg w)) (fresh (dom (heap w)))
  = listified (dict_at w (data m)).
Proof.
  intros Hq HC Hsub. unfold include_cell. run.
  rewrite (verdict_tags _ _ _ HC), bool_decide_true by done. simpl.
  rewrite Hq. simpl. rewrite dict_at_insert.
  unfold cell_tags in HC. unfold listified.
  destruct (dict_at w (data m) !! "tags") as [[]|] eqn:Ht; simplify_eq; simpl.
  - destruct (jq_first _ _) as [[]|]; simpl; try destruct b; simpl;
      unfold dict_at; simpl; by rewrite !lookup_insert_eq.
  - destruct (jq_first _ _) as [[]|]; simpl; try destruct b; simpl;
      unfold dict_at; simpl; by rewrite !lookup_insert_eq.
Qed.

Lemma set_le_raises s v e : set_le s v = Raise e → e = TypeError.
Proof. destruct v; simpl; congruence. Qed.

Lemma py_list_raises v e : py_list v = Raise e → e = TypeError.
Proof. destruct v; simpl; congruence. Qed.

Lemma jq_first_raises q doc e : jq_first q doc = Raise e → is_Exception e = true.
Proof.
  unfold jq_first. destruct (serializable doc); [|by intros [= <-]].
  destruct (q doc) as [|[v|msg] rest]; intros [= <-]; done.
Qed.

(** Whatever [include_cell] raises is caught by [except Exception]. *)
Lemma verdict_raises_Exception cfg d e :
  verdict cfg d = Raise e → is_Exception e = true.
Proof.
  unfold verdict, copy_for_query.
  destruct (set_le _ _) as [[|]|e0] eqn:Hle.
  - destruct (metadata_jq cfg) as [q|]; [|done].
    destruct (d !! "tags") as [t|].
    + destruct (py_list t) as [l|e1] eqn:Hl.
      * destruct (jq_first q _) as [[| [|] | | | | | |]|e2] eqn:Hq; try done.
        intros [= <-]. by eapply jq_first_raises.
      * intros [= <-]. by rewrite (py_list_raises _ _ Hl).
    + destruct (jq_first q _) as [[| [|] | | | | | |]|e2] eqn:Hq; try done.
      intros [= <-]. by eapply jq_first_raises.
  - done.
  - intros [= <-]. by rewrite (set_le_raises _ _ _ Hle).
Qed.

(** C1.  [include_cell] returns true only if the configured tags are a
    subset of the tag set of the cell, a document without a [tags] entry
    having the empty tag set; when they are no subset it returns false. *)
Theorem include_cell_requires_tags (p : path) (m : metadata) (cfg : config)
    (w : world) (C : gset string) :
  cell_tags (dict_at w (data m)) = Some C →
  (fst (include_cell p m cfg w) = Ret true → tags cfg ⊆ C)
  ∧ (tags cfg ⊈ C → fst (include_cell p m cfg w) = Ret false).
Proof.
  intros HC. rewrite include_cell_fst. unfold verdict.
  rewrite (verdict_tags _ _ _ HC). split.
  - destruct (bool_decide_reflect (tags cfg ⊆ C)); [done|]. discriminate.
  - intros Hn. by rewrite bool_decide_false.
Qed.

Lemma include_cell_requires_tags_witness :
  fst (include_cell "a/meta.json" first_cell prod_config
         (world_with (tagged {["prod"; "web"]}))) = Ret true
  ∧ ({["prod"]} : gset string) ⊆ {["prod"; "web"]}
  ∧ fst (include_cell "b/meta.json" first_cell prod_config
         (world_with (tagged {["web"]}))) = Ret false.
Proof.
  split; [by vm_compute|]. split.
  - apply (include_cell_requires_tags "a/meta.json" first_cell prod_config
             (world_with (tagged {["prod"; "web"]})) {["prod"; "web"]}).
    + by vm_compute.
    + by vm_compute.
  - apply (include_cell_requires_tags "b/meta.json" first_cell prod_config
             (world_with (tagged {["web"]})) {["web"]}).
    + by vm_compute.
    + simpl. intros H. specialize (H "prod"). set_solver.
Defined.

(** C2, as stated, fails: with a query that produces no result,
    [include_cell] raises [StopIteration]; it does not return false. *)
Lemma include_cell_no_result_raises :
  let w := world_with (tagged {["web"]}) in
  let doc := VDict (listified (dict_at w (data first_cell))) in
  tags (query_config no_output) ⊆ {["web"]}
  ∧ no_output doc = []
  ∧ fst (include_cell "a/meta.json" first_cell (query_config no_output) w)
    = Raise StopIteration
  ∧ fst (include_cell "a/meta.json" first_cell (query_config no_output) w)
    ≠ Ret false.
Proof.
  simpl. split; [set_solver|]. split; [done|].
  assert (E : fst (include_cell "a/meta.json" first_cell (query_config no_output)
                     (world_with (tagged {["web"]}))) = Raise StopIteration)
    by (by vm_compute).
  split; [exact E|]. rewrite E. discriminate.
Qed.

(** C2, amended.  With a query configured and the tag check passed,
    [include_cell] returns true exactly when the first result of the query
    over the copy with listified tags is the boolean true; any other first
    result (false, null, a value that is no boolean) makes it return
    false; when getting the first result raises, [include_cell] raises the
    same, and a query without result raises [StopIteration]. *)
Theorem include_cell_query_verdict (p : path) (m : metadata) (cfg : config)
    (w : world) (q : value → list jq_item) (C : gset string) :
  metadata_jq cfg = Some q →
  cell_tags (dict_at w (data m)) = Some C →
  tags cfg ⊆ C →
  let doc := VDict (listified (dict_at w (data m))) in
  (fst (include_cell p m cfg w) = Ret true ↔ jq_first q doc = Ret (VBool true))
  ∧ (∀ v, jq_first q doc = Ret v → v ≠ VBool true →
          fst (include_cell p m cfg w) = Ret false)
  ∧ (∀ e, jq_first q doc = Raise e → fst (include_cell p m cfg w) = Raise e)
  ∧ (serializable doc = true → q doc = [] →
     fst (include_cell p m cfg w) = Raise StopIteration).
Proof.
  intros Hq HC Hsub doc. rewrite include_cell_fst. unfold verdict.
  rewrite (verdict_tags _ _ _ HC), bool_decide_true by done.
  rewrite Hq, (copy_for_query_listified _ _ HC). fold doc.
  repeat split.
  - destruct (jq_first q doc) as [[| [|] | | | | | |]|]; congruence.
  - intros ->. done.
  - intros v -> Hv. destruct v as [| [|] | | | | | |]; congruence.
  - intros e ->. done.
  - intros Hs Hnil. unfold jq_first. by rewrite Hs, Hnil.
Qed.

Lemma include_cell_query_verdict_witness :
  let w := world_with (tagged {["web"]}) in
  cell_tags (dict_at w (data first_cell)) = Some {["web"]}
  ∧ fst (include_cell "a/meta.json" first_cell (query_config (says (VBool true))) w)
    = Ret true
  ∧ fst (include_cell "a/meta.json" first_cell (query_config (says (VStr "yes"))) w)
    = Ret false.
Proof.
  cbv zeta.
  assert (HC : cell_tags (dict_at (world_with (tagged {["web"]})) (data first_cell))
               = Some {["web"]}) by (by vm_compute).
  assert (Hsub : (∅ : gset string) ⊆ {["web"]}) by set_solver.
  split; [exact HC|]. split.
  - destruct (include_cell_query_verdict "a/meta.json" first_cell
                (query_config (says (VBool true))) (world_with (tagged {["web"]}))
                (says (VBool true)) {["web"]} eq_refl HC Hsub) as (Hiff & _).
    apply Hiff. by vm_compute.
  - destruct (include_cell_query_verdict "a/meta.json" first_cell
                (query_config (says (VStr "yes"))) (world_with (tagged {["web"]}))
                (says (VStr "yes")) {["web"]} eq_refl HC Hsub) as (_ & Hother & _).
    apply (Hother (VStr "yes")); [by vm_compute|discriminate].
Defined.

(** C8.  [include_cell] leaves every object of the store as it was, the
    metadata document among them: the copy is a new object, and it is the
    copy that receives the tags as a list. *)
Theorem include_cell_keeps_metadata (p : path) (m : metadata) (cfg : config)
    (w : world) (l : loc) :
  is_Some (heap w !! l) →
  heap (snd (include_cell p m cfg w)) !! l = heap w !! l
  ∧ l ≠ fresh (dom (heap w))
  ∧ (∀ q C, metadata_jq cfg = Some q →
            cell_tags (dict_at w (data m)) = Some C → tags cfg ⊆ C →
            dict_at (snd (include_cell p m cfg w)) (fresh (dom (heap w)))
            = listified (dict_at w (data m))).
Proof.
  intros Hl. split; [by apply include_cell_heap_frame|].
  split; [by apply fresh_loc_unused|].
  intros q C. apply include_cell_copy.
Qed.

Lemma include_cell_keeps_metadata_witness :
  let w := world_with (tagged {["web"]}) in
  let w' := snd (include_cell "a/meta.json" first_cell (query_config (says (VBool true))) w) in
  is_Some (heap w !! data first_cell)
  ∧ heap w' !! data first_cell = heap w !! data first_cell
  ∧ dict_at w' (fresh (dom (heap w))) = listified (dict_at w (data first_cell)).
Proof.
  cbv zeta.
  assert (Hs : is_Some (heap (world_with (tagged {["web"]})) !! data first_cell)).
  { exists (VDict (tagged {["web"]})). by vm_compute. }
  destruct (include_cell_keeps_metadata "a/meta.json" first_cell
              (query_config (says (VBool true))) (world_with (tagged {["web"]}))
              (data first_cell) Hs) as (Hkeep & _ & Hcopy).
  split; [exact Hs|]. split; [exact Hkeep|].
  apply (Hcopy (says (VBool true)) {["web"]} eq_refl).
  - by vm_compute.
  - apply empty_subseteq.
Defined.

(** ** The walk over all cells *)

Lemma has_id_field d : has_id d = true → is_Some (d !! "id").
Proof.
  unfold has_id. rewrite metadata_get_id. destruct (d !! "id"); [eauto|done].
Qed.

Lemma walk_body_failed env cfg p w e :
  load_file env p = Raise e → walk_body env cfg p w = (Raise e, w).
Proof. intros H. unfold walk_body, load_metadata. run. by rewrite H. Qed.

Lemma walk_body_no_id env cfg p w d :
  load_file env p = Ret d → has_id d = false →
  walk_body env cfg p w = (Ret None, loaded w d).
Proof.
  intros H Hid. unfold walk_body, load_metadata. run. rewrite H. simpl.
  rewrite dict_at_insert. unfold has_id in Hid. by rewrite Hid.
Qed.

Lemma walk_body_with_id_eq env cfg p w d :
  load_file env p = Ret d → has_id d = true →
  let m := {| data := fresh (dom (heap w)) |} in
  walk_body env cfg p w =
    match include_cell p m cfg (found_world w p d) with
    | (Ret b, w2) => (Ret (if b then Some (p, m) else None), w2)
    | (Raise e, w2) => (Raise e, w2)
    end.
Proof.
  intros H Hid m. unfold walk_body, load_metadata. run. rewrite H. simpl.
  rewrite dict_at_insert. unfold has_id in Hid. rewrite Hid.
  reflexivity.
Qed.

Lemma found_world_doc w p d :
  dict_at (found_world w p d) (fresh (dom (heap w))) = d.
Proof. unfold dict_at, found_world. simpl. by rewrite lookup_insert_eq. Qed.

Lemma found_world_other w p d l :
  is_Some (heap w !! l) → heap (found_world w p d) !! l = heap w !! l.
Proof.
  intros Hl. unfold found_world. simpl. rewrite lookup_insert_ne; [done|].
  intros <-. by apply (fresh_loc_unused _ _ Hl).
Qed.

Lemma walk_body_with_id env cfg p w d :
  load_file env p = Ret d → has_id d = true →
  let m := {| data := fresh (dom (heap w)) |} in
  fst (walk_body env cfg p w) =
    match verdict cfg d with
    | Ret b => Ret (if b then Some (p, m) else None)
    | Raise e => Raise e
    end
  ∧ heap (snd (walk_body env cfg p w)) !! data m = Some (VDict d)
  ∧ (∀ l, is_Some (heap w !! l) →
          heap (snd (walk_body env cfg p w)) !! l = heap w !! l).
Proof.
  intros H Hid m. rewrite (walk_body_with_id_eq _ _ _ _ _ H Hid). fold m.
  pose proof (include_cell_fst p m cfg (found_world w p d)) as Hfst.
  rewrite found_world_doc in Hfst.
  pose proof (include_cell_heap_frame p m cfg (found_world w p d)) as Hframe.
  assert (Hm : heap (found_world w p d) !! data m = Some (VDict d)).
  { unfold found_world. simpl. by rewrite lookup_insert_eq. }
  assert (Hsnd : ∀ l, is_Some (heap w !! l) →
            heap (include_cell p m cfg (found_world w p d)).2 !! l = heap w !! l).
  { intros l Hl. rewrite Hframe by (by rewrite found_world_other).
    by apply found_world_other. }
  assert (Hdoc : heap (include_cell p m cfg (found_world w p d)).2 !! data m
                 = Some (VDict d)).
  { rewrite Hframe by (by rewrite Hm). done. }
  rewrite <- Hfst.
  by destruct (include_cell p m cfg (found_world w p d)) as [[b|e] w2].
Qed.

Lemma walk_body_cases env cfg p w :
  (∃ e, load_file env p = Raise e ∧ walk_body env cfg p w = (Raise e, w))
  ∨ (∃ d, load_file env p = Ret d ∧ has_id d = false
          ∧ walk_body env cfg p w = (Ret None, loaded w d))
  ∨ (∃ d, load_file env p = Ret d ∧ has_id d = true).
Proof.
  destruct (load_file env p) as [d|e] eqn:H.
  - destruct (has_id d) eqn:Hid.
    + right. right. eauto.
    + right. left. exists d. split; [done|]. split; [done|].
      by apply walk_body_no_id.
  - left. exists e. split; [done|]. by apply walk_body_failed.
Qed.

Lemma walk_body_heap env cfg p w l :
  is_Some (heap w !! l) →
  heap (snd (walk_body env cfg p w)) !! l = heap w !! l.
Proof.
  intros Hl.
  destruct (walk_body_cases env cfg p w)
    as [(e & _ & ->)|[(d & _ & _ & ->)|(d & H & Hid)]]; simpl.
  - done.
  - rewrite lookup_insert_ne; [done|]. intros <-. by apply (fresh_loc_unused _ _ Hl).
  - by apply (walk_body_with_id _ _ _ _ _ H Hid).
Qed.

Lemma walk_body_logs env cfg p w :
  logs w `prefix_of` logs (snd (walk_body env cfg p w)).
Proof.
  destruct (walk_body_cases env cfg p w)
    as [(e & _ & ->)|[(d & _ & _ & ->)|(d & H & Hid)]]; simpl; try done.
  rewrite (walk_body_with_id_eq _ _ _ _ _ H Hid).
  pose proof (include_cell_logs p {| data := fresh (dom (heap w)) |} cfg
                (found_world w p d)) as Hp.
  assert (Hw : logs w `prefix_of` logs (found_world w p d))
    by (by apply prefix_app_r).
  destruct (include_cell _ _ _ _) as [[b|e] w2]; simpl in *; by etrans.
Qed.

Lemma walk_loop_ret env cfg p rest w it w1 :
  walk_body env cfg p w = (Ret it, w1) →
  walk_loop env cfg (p :: rest) w =
    (option_list it ++ yields_of (walk_loop env cfg rest w1),
     ending_of (walk_loop env cfg rest w1),
     world_of (walk_loop env cfg rest w1)).
Proof.
  intros H. simpl. rewrite H.
  by destruct (walk_loop env cfg rest w1) as [[ys r] w2].
Qed.

Lemma walk_loop_skip env cfg p rest w e w1 :
  walk_body env cfg p w = (Raise e, w1) → is_Exception e = true →
  walk_loop env cfg (p :: rest) w = walk_loop env cfg rest (logged_failure p w1).
Proof. intros H He. simpl. by rewrite H, He. Qed.

Lemma walk_loop_abort env cfg p rest w e w1 :
  walk_body env cfg p w = (Raise e, w1) → is_Exception e = false →
  walk_loop env cfg (p :: rest) w = ([], Raise e, w1).
Proof. intros H He. simpl. by rewrite H, He. Qed.

Lemma walk_loop_heap env cfg paths : ∀ w l,
  is_Some (heap w !! l) →
  heap (world_of (walk_loop env cfg paths w)) !! l = heap w !! l.
Proof.
  induction paths as [|p rest IH]; intros w l Hl; [done|].
  pose proof (walk_body_heap env cfg p w l Hl) as Hb.
  destruct (walk_body env cfg p w) as [[it|e] w1] eqn:E; simpl in Hb.
  - rewrite (walk_loop_ret _ _ _ _ _ _ _ E). unfold world_of at 1. simpl.
    rewrite IH; [done|]. by rewrite Hb.
  - destruct (is_Exception e) eqn:He.
    + rewrite (walk_loop_skip _ _ _ _ _ _ _ E He).
      rewrite IH; [done|]. unfold logged_failure. simpl. by rewrite Hb.
    + by rewrite (walk_loop_abort _ _ _ _ _ _ _ E He).
Qed.

Lemma walk_loop_logs env cfg paths : ∀ w,
  logs w `prefix_of` logs (world_of (walk_loop env cfg paths w)).
Proof.
  induction paths as [|p rest IH]; intros w; [done|].
  pose proof (walk_body_logs env cfg p w) as Hb.
  destruct (walk_body env cfg p w) as [[it|e] w1] eqn:E; simpl in Hb.
  - rewrite (walk_loop_ret _ _ _ _ _ _ _ E). unfold world_of at 1. simpl.
    etrans; [exact Hb|apply IH].
  - destruct (is_Exception e) eqn:He.
    + rewrite (walk_loop_skip _ _ _ _ _ _ _ E He).
      etrans; [|apply IH]. unfold logged_failure. simpl.
      etrans; [exact Hb|by apply prefix_app_r].
    + by rewrite (walk_loop_abort _ _ _ _ _ _ _ E He).
Qed.

(** What the walk yields comes from a file that loaded, has an id and
    passes the filter, and the yielded object still holds that document. *)
Lemma walk_loop_yields env cfg paths : ∀ w p m,
  (p, m) ∈ yields_of (walk_loop env cfg paths w) →
  p ∈ paths
  ∧ ∃ d, load_file env p = Ret d ∧ has_id d = true ∧ passes cfg d = true
         ∧ heap (world_of (walk_loop env cfg paths w)) !! data m = Some (VDict d).
Proof.
  induction paths as [|p0 rest IH]; intros w p m Hin.
  - by apply elem_of_nil in Hin.
  - destruct (walk_body env cfg p0 w) as [[it|e] w1] eqn:E.
    + rewrite (walk_loop_ret _ _ _ _ _ _ _ E) in Hin |- *.
      unfold yields_of at 1 in Hin. unfold world_of at 1. simpl in Hin |- *.
      apply elem_of_app in Hin as [Hin|Hin].
      * destruct it as [it|]; [|by apply elem_of_nil in Hin].
        apply list_elem_of_singleton in Hin. subst it.
        destruct (walk_body_cases env cfg p0 w)
          as [(e & _ & E')|[(d & _ & _ & E')|(d & H & Hid)]];
          [congruence|congruence|].
        destruct (walk_body_with_id _ cfg _ w _ H Hid) as (Hfst & Hdoc & _).
        rewrite E in Hfst, Hdoc. simpl in Hfst, Hdoc.
        destruct (verdict cfg d) as [[|]|e] eqn:Hv; simplify_eq.
        split; [by left|]. exists d. unfold passes. rewrite Hv.
        repeat split; try done.
        rewrite walk_loop_heap; simpl; rewrite Hdoc; done.
      * destruct (IH _ _ _ Hin) as (Hp & d & ?). split; [by right|]. by exists d.
    + destruct (is_Exception e) eqn:He.
      * rewrite (walk_loop_skip _ _ _ _ _ _ _ E He) in Hin |- *.
        destruct (IH _ _ _ Hin) as (Hp & d & ?). split; [by right|]. by exists d.
      * rewrite (walk_loop_abort _ _ _ _ _ _ _ E He) in Hin.
        by apply elem_of_nil in Hin.
Qed.

Lemma selected_loaded env cfg p d :
  load_file env p = Ret d → selected env cfg p = has_id d && passes cfg d.
Proof. unfold selected. by intros ->. Qed.

Lemma selected_failed env cfg p e :
  load_file env p = Raise e → selected env cfg p = false.
Proof. unfold selected. by intros ->. Qed.

Lemma walk_loop_selected env cfg paths :
  (∀ p e, p ∈ paths → load_file env p = Raise e → is_Exception e = true) →
  ∀ w, ending_of (walk_loop env cfg paths w) = Ret tt
       ∧ (yields_of (walk_loop env cfg paths w)).*1
         = filter (fun p => selected env cfg p = true) paths.
Proof.
  induction paths as [|p rest IH]; intros Hexc w; [done|].
  assert (Hrest : ∀ p e, p ∈ rest → load_file env p = Raise e → is_Exception e = true).
  { intros q e Hq. apply Hexc. by right. }
  specialize (IH Hrest). rewrite filter_cons.
  destruct (walk_body_cases env cfg p w)
    as [(e & H & E)|[(d & H & Hid & E)|(d & H & Hid)]].
  - assert (He : is_Exception e = true) by (eapply Hexc; [by left|done]).
    rewrite (walk_loop_skip _ _ _ _ _ _ _ E He).
    rewrite decide_False by (by rewrite (selected_failed _ _ _ _ H)). apply IH.
  - rewrite (walk_loop_ret _ _ _ _ _ _ _ E).
    rewrite decide_False by (by rewrite (selected_loaded _ _ _ _ H), Hid).
    apply IH.
  - destruct (walk_body_with_id _ cfg _ w _ H Hid) as (Hfst & _ & _).
    pose proof (selected_loaded _ cfg _ _ H) as Hsel.
    rewrite Hid in Hsel. unfold passes in Hsel. simpl in Hsel.
    destruct (walk_body env cfg p w) as [[it|e] w1] eqn:E; simpl in Hfst.
    + rewrite (walk_loop_ret _ _ _ _ _ _ _ E).
      unfold yields_of at 1, ending_of at 1. cbn [fst snd].
      destruct (IH w1) as (Hend & Hys). split; [done|].
      change (yields_of (?a, _, _)) with a.
      rewrite fmap_app, Hys.
      destruct (verdict cfg d) as [[|]|e] eqn:Hv; simplify_eq.
      * by rewrite decide_True by done.
      * by rewrite decide_False by (by rewrite Hsel).
    + destruct (verdict cfg d) as [b|e'] eqn:Hv; [discriminate|].
      injection Hfst as ->.
      assert (He : is_Exception e' = true) by (by eapply verdict_raises_Exception).
      rewrite (walk_loop_skip _ _ _ _ _ _ _ E He).
      rewrite decide_False by (by rewrite Hsel). apply IH.
Qed.

Lemma walk_loop_errors env cfg paths :
  (∀ p e, p ∈ paths → load_file env p = Raise e → is_Exception e = true) →
  ∀ w p e, p ∈ paths → load_file env p = Raise e →
           load_error p ∈ logs (world_of (walk_loop env cfg paths w)).
Proof.
  induction paths as [|p0 rest IH]; intros Hexc w p e Hin Hfail.
  - by apply elem_of_nil in Hin.
  - assert (Hrest : ∀ p e, p ∈ rest → load_file env p = Raise e → is_Exception e = true).
    { intros q e' Hq. apply Hexc. by right. }
    apply elem_of_cons in Hin as [->|Hin].
    + pose proof (walk_body_failed env cfg p0 w e Hfail) as E.
      assert (He : is_Exception e = true) by (eapply Hexc; [by left|done]).
      rewrite (walk_loop_skip _ _ _ _ _ _ _ E He).
      eapply elem_of_prefix; [|apply walk_loop_logs].
      unfold logged_failure. simpl. apply elem_of_app. right. by left.
    + destruct (walk_body env cfg p0 w) as [[it|e0] w1] eqn:E.
      * rewrite (walk_loop_ret _ _ _ _ _ _ _ E). unfold world_of at 1. simpl.
        by eapply IH.
      * assert (He : is_Exception e0 = true).
        { destruct (walk_body_cases env cfg p0 w)
            as [(e1 & H & E1)|[(d & H & Hid & E1)|(d & H & Hid)]].
          - rewrite E in E1. simplify_eq. eapply Hexc; [by left|done].
          - rewrite E in E1. simplify_eq.
          - destruct (walk_body_with_id _ cfg _ w _ H Hid) as (Hfst & _ & _).
            rewrite E in Hfst. simpl in Hfst.
            destruct (verdict cfg d) as [b|e'] eqn:Hv; [discriminate|].
            injection Hfst as ->. by eapply verdict_raises_Exception. }
        rewrite (walk_loop_skip _ _ _ _ _ _ _ E He). by eapply IH.
Qed.

Lemma walk_branch_on env cfg w :
  all_cells cfg = true →
  walk_branch env cfg w =
    walk_loop env cfg (glob_meta env) (snd (log Info "searching for cells" (Some ".") w)).
Proof. unfold walk_branch. by intros ->. Qed.

Lemma walk_branch_off env cfg w :
  all_cells cfg = false → walk_branch env cfg w = ([], Ret tt, w).
Proof. unfold walk_branch. by intros ->. Qed.

Lemma selected_cells_yields env cfg w :
  ∃ ys, yields_of (selected_cells env cfg w) = yields_of (walk_branch env cfg w) ++ ys.
Proof.
  unfold selected_cells.
  destruct (walk_branch env cfg w) as [[ys1 [[]|e]] w1].
  - destruct (resolve_loop _ _ _ _) as [[ys2 r] w2]. by exists ys2.
  - exists []. by rewrite app_nil_r.
Qed.

(** C5.  In the walk over all cells, a metadata file that fails to load is
    logged as an error and skipped, and the walk goes on: it ends normally
    and yields, in order, exactly the files that load, have an id and pass
    the filter, each with the document loaded from it; [selected_cells]
    yields these first. *)
Theorem walk_skips_failed_loads (env : environment) (cfg : config) (w : world) :
  all_cells cfg = true →
  (∀ p e, p ∈ glob_meta env → load_file env p = Raise e → is_Exception e = true) →
  let walk := walk_branch env cfg w in
  ending_of walk = Ret tt
  ∧ (yields_of walk).*1 = filter (fun p => selected env cfg p = true) (glob_meta env)
  ∧ (∀ p m, (p, m) ∈ yields_of walk →
            load_file env p = Ret (dict_at (world_of walk) (data m)))
  ∧ (∀ p e, p ∈ glob_meta env → load_file env p = Raise e →
            load_error p ∈ logs (world_of walk))
  ∧ (∃ ys, yields_of (selected_cells env cfg w) = yields_of walk ++ ys).
Proof.
  intros Hall Hexc walk.
  pose proof (selected_cells_yields env cfg w) as Hsel.
  unfold walk in *. rewrite (walk_branch_on _ _ _ Hall) in *.
  destruct (walk_loop_selected env cfg (glob_meta env) Hexc
              (snd (log Info "searching for cells" (Some ".") w))) as (Hend & Hys).
  repeat split; try done.
  - intros p m Hin. destruct (walk_loop_yields _ _ _ _ _ _ Hin) as (_ & d & H & _ & _ & Hd).
    unfold dict_at. by rewrite Hd.
  - intros p e. by apply walk_loop_errors.
Qed.

Lemma walk_skips_failed_loads_witness :
  all_cells walk_config = true
  ∧ (yields_of (walk_branch three_files walk_config empty_world)).*1
    = ["a/meta.json"; "c/meta.json"]
  ∧ load_error "b/meta.json"
    ∈ logs (world_of (walk_branch three_files walk_config empty_world)).
Proof.
  assert (Hexc : ∀ p e, p ∈ glob_meta three_files →
                        load_file three_files p = Raise e → is_Exception e = true).
  { intros p e _. simpl. destruct (String.eqb p "b/meta.json"); by intros [= <-]. }
  destruct (walk_skips_failed_loads three_files walk_config empty_world eq_refl Hexc)
    as (_ & Hys & _ & Hlog & _).
  split; [reflexivity|]. split.
  - rewrite Hys. by vm_compute.
  - apply (Hlog "b/meta.json" (ValueError "malformed JSON")).
    + right. left.
    + reflexivity.
Defined.

(** C7.  Whatever the walk yields was loaded from its file and has an [id]
    field; for a loaded document without one the round of the walk ends
    after the load, the filter is not run and nothing is yielded. *)
Theorem walk_yields_have_id (env : environment) (cfg : config) (w : world)
    (p : path) (m : metadata) :
  (p, m) ∈ yields_of (walk_branch env cfg w) →
  (∃ d, load_file env p = Ret d
        ∧ dict_at (world_of (walk_branch env cfg w)) (data m) = d
        ∧ is_Some (d !! "id") ∧ has_id d = true)
  ∧ (∀ p' d' w', load_file env p' = Ret d' → d' !! "id" = None →
                 walk_body env cfg p' w' = (Ret None, loaded w' d')).
Proof.
  intros Hin. split.
  - unfold walk_branch in *. destruct (all_cells cfg).
    + destruct (walk_loop_yields _ _ _ _ _ _ Hin) as (_ & d & H & Hid & _ & Hd).
      exists d. repeat split; try done.
      * unfold dict_at. by rewrite Hd.
      * by apply has_id_field.
    + by apply elem_of_nil in Hin.
  - intros p' d' w' H Hno. apply walk_body_no_id; [done|].
    unfold has_id. by rewrite metadata_get_id, Hno.
Qed.

Lemma walk_yields_have_id_witness :
  ("a/meta.json", first_cell)
  ∈ yields_of (walk_branch three_files walk_config empty_world)
  ∧ ∃ d, load_file three_files "a/meta.json" = Ret d ∧ is_Some (d !! "id").
Proof.
  assert (Hin : ("a/meta.json", first_cell)
                ∈ yields_of (walk_branch three_files walk_config empty_world)).
  { assert (E : yields_of (walk_branch three_files walk_config empty_world)
                = [("a/meta.json", first_cell); ("c/meta.json", {| data := 2%positive |})])
      by (by vm_compute).
    rewrite E. left. }
  split; [exact Hin|].
  destruct (walk_yields_have_id three_files walk_config empty_world
              "a/meta.json" first_cell Hin) as ((d & Hd & _ & Hid & _) & _).
  exists d. by split.
Defined.

(** ** Resolving the identifiers *)

Lemma resolve_body_missing env cfg id w :
  lookup_cell env id = None →
  resolve_body env cfg id w = (Raise (NameError "line"), w).
Proof. intros H. unfold resolve_body, find_cell. rewrite H. reflexivity. Qed.

Lemma resolve_body_found env cfg id w p d :
  lookup_cell env id = Some (p, d) →
  let m := {| data := fresh (dom (heap w)) |} in
  resolve_body env cfg id w =
    match include_cell p m cfg (found_world w p d) with
    | (Ret b, w2) => (Ret (if b then Some (p, m) else None), w2)
    | (Raise e, w2) => (Raise e, w2)
    end.
Proof. intros H m. unfold resolve_body, find_cell. rewrite H. reflexivity. Qed.

Lemma resolve_body_found_fst env cfg id w p d :
  lookup_cell env id = Some (p, d) →
  fst (resolve_body env cfg id w) =
    match verdict cfg d with
    | Ret b => Ret (if b then Some (p, {| data := fresh (dom (heap w)) |}) else None)
    | Raise e => Raise e
    end.
Proof.
  intros H. rewrite (resolve_body_found _ _ _ _ _ _ H).
  pose proof (include_cell_fst p {| data := fresh (dom (heap w)) |} cfg
                (found_world w p d)) as Hfst.
  rewrite found_world_doc in Hfst. rewrite <- Hfst.
  by destruct (include_cell _ _ _ _) as [[b|e] w2].
Qed.

(** C3.  What the code does for an identifier that [find_cell] does not
    know: reading [line], which [selected_cells] never binds, raises
    [NameError]; [new_cell] is not called, nothing is created or yielded. *)
Theorem selected_cells_unknown_identifier (env : environment) (cfg : config)
    (w : world) (id : string) (rest : list string) :
  all_cells cfg = false →
  fst (cell_identifiers cfg (stdin_lines env)) = id :: rest →
  lookup_cell env id = None →
  selected_cells env cfg w = ([], Raise (NameError "line"), w).
Proof.
  intros Hall Hids Hno. unfold selected_cells.
  rewrite (walk_branch_off _ _ _ Hall), Hids. simpl.
  by rewrite (resolve_body_missing _ _ _ _ Hno).
Qed.

Lemma selected_cells_unknown_identifier_witness :
  lookup_cell three_files "x" = None
  ∧ selected_cells three_files unknown_config empty_world
    = ([], Raise (NameError "line"), empty_world).
Proof.
  split; [reflexivity|].
  apply (selected_cells_unknown_identifier three_files unknown_config empty_world
           "x" []); reflexivity.
Defined.

(** C10.  A cell found for an identifier is yielded exactly when
    [include_cell] accepts it, whether or not its document has an [id]; the
    walk yields nothing for a document without an id. *)
Theorem resolve_ignores_id (env : environment) (cfg : config) (w : world)
    (id : string) (p : path) (d : gmap string value) :
  all_cells cfg = false →
  fst (cell_identifiers cfg (stdin_lines env)) = [id] →
  lookup_cell env id = Some (p, d) →
  yields_of (selected_cells env cfg w)
  = (if passes cfg d then [(p, {| data := fresh (dom (heap w)) |})] else [])
  ∧ (has_id d = false → ∀ env' w', load_file env' p = Ret d →
     yields_of (walk_loop env' cfg [p] w') = []).
Proof.
  intros Hall Hids Hfound. split.
  - unfold selected_cells. rewrite (walk_branch_off _ _ _ Hall), Hids. simpl.
    pose proof (resolve_body_found_fst env cfg id w p d Hfound) as Hfst.
    unfold passes.
    destruct (resolve_body env cfg id w) as [[it|e] w1]; simpl in Hfst.
    + destruct (verdict cfg d) as [[|]|e]; simplify_eq; done.
    + destruct (verdict cfg d) as [[|]|e']; simplify_eq; done.
  - intros Hid env' w' H.
    by rewrite (walk_loop_ret _ _ _ _ _ _ _ (walk_body_no_id _ _ _ _ _ H Hid)).
Qed.

Lemma resolve_ignores_id_witness :
  no_id_doc !! "id" = None
  ∧ yields_of (selected_cells store_with_x unknown_config empty_world)
    = [("x/meta.json", first_cell)]
  ∧ yields_of (walk_loop store_with_x unknown_config ["x/meta.json"] empty_world) = [].
Proof.
  destruct (resolve_ignores_id store_with_x unknown_config empty_world
              "x" "x/meta.json" no_id_doc eq_refl eq_refl eq_refl) as (Hres & Hwalk).
  split; [by vm_compute|]. split.
  - rewrite Hres. by vm_compute.
  - apply Hwalk; [by vm_compute|reflexivity].
Defined.

(** ** measurement_ts *)

Lemma context_ne_spec c1 c2 : context_ne c1 c2 = true ↔ c1 ≠ c2.
Proof.
  unfold context_ne. destruct c1 as [a1], c2 as [a2]. simpl.
  destruct (Z.eqb_spec a1 a2) as [->|Hn]; simpl.
  - split; [discriminate|]. intros H. by destruct H.
  - split; [|done]. intros _ [= ?]. done.
Qed.

(** A context has a date when one of the year, month, week or day bits of
    its accuracy is set. *)
Lemma hasDate_bits c :
  hasDate c = Z.testbit (accuracy c) 0 || Z.testbit (accuracy c) 1
              || Z.testbit (accuracy c) 2 || Z.testbit (accuracy c) 3.
Proof.
  unfold hasDate. change ACU_DATE with 15%Z.
  destruct (Z.eqb_spec (Z.land (accuracy c) 15) 0) as [H|H]; cbn [negb].
  - assert (Hb : ∀ i, Z.testbit (Z.land (accuracy c) 15) i = false)
      by (intros i; rewrite H; apply Z.bits_0).
    pose proof (Hb 0%Z) as H0. pose proof (Hb 1%Z) as H1.
    pose proof (Hb 2%Z) as H2. pose proof (Hb 3%Z) as H3.
    rewrite Z.land_spec in H0, H1, H2, H3.
    change (Z.testbit 15 0) with true in H0. change (Z.testbit 15 1) with true in H1.
    change (Z.testbit 15 2) with true in H2. change (Z.testbit 15 3) with true in H3.
    rewrite andb_true_r in H0, H1, H2, H3. by rewrite H0, H1, H2, H3.
  - symmetry. apply not_false_iff_true. intros Hf.
    apply orb_false_elim in Hf as [Hf H3]. apply orb_false_elim in Hf as [Hf H2].
    apply orb_false_elim in Hf as [H0 H1].
    apply H. apply Z.bits_inj'. intros i Hi. rewrite Z.land_spec, Z.bits_0.
    destruct (Z.eq_dec i 0) as [->|]; [by rewrite H0|].
    destruct (Z.eq_dec i 1) as [->|]; [by rewrite H1|].
    destruct (Z.eq_dec i 2) as [->|]; [by rewrite H2|].
    destruct (Z.eq_dec i 3) as [->|]; [by rewrite H3|].
    assert (Hhi : Z.testbit 15 i = false).
    { change 15%Z with (Z.ones 4). apply Z.ones_spec_high. lia. }
    by rewrite Hhi, andb_false_r.
Qed.

(** C4.  [measurement_ts] ends the process with a non-zero exit code
    exactly when the parsed context has no date and is not the context of
    "now"; the code is 1.  In every other case it returns [mktime] of the
    parsed time. *)
Theorem measurement_ts_exits (tl : timelib) (cfg : config) (w : world) :
  let time_parsed := fst (parse tl (timestamp cfg)) in
  let context := snd (parse tl (timestamp cfg)) in
  let no_date := hasDate context = false ∧ context ≠ now_context in
  ((∃ code, code ≠ 0%Z ∧ fst (measurement_ts tl cfg w) = Raise (SystemExit code))
   ↔ no_date)
  ∧ (no_date → fst (measurement_ts tl cfg w) = Raise (SystemExit 1))
  ∧ (¬ no_date → fst (measurement_ts tl cfg w) = Ret (mktime tl time_parsed)).
Proof.
  intros time_parsed context no_date. unfold measurement_ts.
  subst time_parsed context no_date.
  destruct (parse tl (timestamp cfg)) as [tp ctx]. simpl.
  unfold mbind, M_bind, mret, M_ret, lift, log. simpl.
  fold now_context.
  destruct (hasDate ctx) eqn:Hd; simpl.
  - split; [split|split].
    + intros (code & _ & ?). discriminate.
    + intros [? _]. discriminate.
    + intros [? _]. discriminate.
    + done.
  - destruct (context_ne ctx now_context) eqn:Hne; simpl.
    + apply context_ne_spec in Hne. split; [split|split].
      * done.
      * intros _. by exists 1%Z.
      * done.
      * intros Hn. by destruct Hn.
    + assert (Heq : ¬ ctx ≠ now_context).
      { intros Hc. apply context_ne_spec in Hc. congruence. }
      split; [split|split].
      * intros (code & _ & ?). discriminate.
      * intros [_ ?]. done.
      * intros [_ ?]. done.
      * done.
Qed.

(** ** AddSet *)

Lemma AddSet_call_set self ns v w l s :
  ns !! dest self = Some l → heap w !! l = Some (VSet s) →
  AddSet_call self ns v w = (Ret tt, set_heap (<[l := VSet ({[v]} ∪ s)]> (heap w)) w).
Proof. intros Hd Hs. unfold AddSet_call. by rewrite Hd, Hs. Qed.

Lemma AddSet_occurrences_set self ns occurrences : ∀ w l s,
  ns !! dest self = Some l → heap w !! l = Some (VSet s) →
  AddSet_occurrences self ns occurrences w =
    (Ret tt, set_heap (<[l := VSet (list_to_set occurrences ∪ s)]> (heap w)) w).
Proof.
  induction occurrences as [|v rest IH]; intros w l s Hd Hs.
  - change (AddSet_occurrences self ns [] w) with (Ret tt, w).
    change (list_to_set []) with (∅ : gset string). rewrite union_empty_l_L.
    rewrite (insert_id (heap w) l _ Hs). by rewrite set_heap_id.
  - change (AddSet_occurrences self ns (v :: rest) w)
      with (match AddSet_call self ns v w with
            | (Ret _, w') => AddSet_occurrences self ns rest w'
            | (Raise e, w') => (Raise e, w')
            end).
    rewrite (AddSet_call_set _ _ _ _ _ _ Hd Hs).
    rewrite (IH _ l ({[v]} ∪ s) Hd); [|simpl; apply lookup_insert_eq].
    unfold set_heap. simpl. rewrite insert_insert_eq.
    do 4 f_equal. set_solver.
Qed.

(** C9.  With a set at the destination attribute, the occurrences of the
    flag all succeed and leave that set extended by their values, every
    other object untouched; a value given twice counts once, and the order
    of the occurrences does not matter.  [--tag prod --tag web] on the
    empty set gives {"prod", "web"}. *)
Theorem AddSet_accumulates (self : action) (namespace : gmap string loc)
    (occurrences : list string) (w : world) (l : loc) (s : gset string) :
  namespace !! dest self = Some l →
  heap w !! l = Some (VSet s) →
  let after occs := snd (AddSet_occurrences self namespace occs w) in
  fst (AddSet_occurrences self namespace occurrences w) = Ret tt
  ∧ heap (after occurrences) !! l = Some (VSet (list_to_set occurrences ∪ s))
  ∧ (∀ l', l' ≠ l → heap (after occurrences) !! l' = heap w !! l')
  ∧ (∀ v, after [v; v] = after [v])
  ∧ (∀ v1 v2, after [v1; v2] = after [v2; v1])
  ∧ (∀ occs, occs ≡ₚ occurrences → after occs = after occurrences).
Proof.
  intros Hd Hs after. subst after. cbv beta.
  rewrite !(AddSet_occurrences_set _ _ occurrences _ _ _ Hd Hs). cbn [fst snd set_heap heap].
  split; [done|]. split; [apply lookup_insert_eq|].
  split; [intros l' Hl'; by apply lookup_insert_ne|].
  split; [|split].
  - intros v. rewrite !(AddSet_occurrences_set _ _ _ _ _ _ Hd Hs). simpl.
    do 4 f_equal. set_solver.
  - intros v1 v2. rewrite !(AddSet_occurrences_set _ _ _ _ _ _ Hd Hs). simpl.
    do 4 f_equal. set_solver.
  - intros occs Hp. rewrite !(AddSet_occurrences_set _ _ _ _ _ _ Hd Hs). simpl.
    do 4 f_equal. apply set_eq. intros x.
    rewrite !elem_of_list_to_set. by rewrite Hp.
Qed.

Lemma AddSet_accumulates_witness :
  tag_namespace !! dest tag_action = Some 1%positive
  ∧ heap tag_world !! 1%positive = Some (VSet ∅)
  ∧ heap (snd (AddSet_occurrences tag_action tag_namespace ["prod"; "web"] tag_world))
      !! 1%positive = Some (VSet (list_to_set ["prod"; "web"] ∪ ∅)).
Proof.
  assert (Hd : tag_namespace !! dest tag_action = Some 1%positive) by (by vm_compute).
  assert (Hs : heap tag_world !! 1%positive = Some (VSet ∅)) by (by vm_compute).
  split; [exact Hd|]. split; [exact Hs|].
  exact (proj1 (proj2 (AddSet_accumulates tag_action tag_namespace ["prod"; "web"]
                         tag_world 1%positive ∅ Hd Hs))).
Defined.

(** ** Further properties of cell_identifiers *)

Lemma elem_of_stdin_identifiers id lines :
  id ∈ stdin_identifiers lines ↔ id ≠ "" ∧ ∃ line, line ∈ lines ∧ id = strip line.
Proof.
  rewrite stdin_identifiers_filter. unfold trimmed_nonblank.
  rewrite list_elem_of_filter, list_elem_of_fmap. naive_solver.
Qed.

(** X1.  An identifier read from standard input is never empty, neither
    starts nor ends with whitespace, and is a line of the input without
    the whitespace around it. *)
Theorem stdin_identifiers_trimmed (lines : list string) (id : string) :
  id ∈ stdin_identifiers lines →
  id ≠ ""
  ∧ no_space (first_char id) = true ∧ no_space (last_char id) = true
  ∧ ∃ line l r, line ∈ lines ∧ line = l +:+ id +:+ r
                ∧ all_space l = true ∧ all_space r = true.
Proof.
  intros Hin. apply elem_of_stdin_identifiers in Hin as (Hne & line & Hline & ->).
  destruct (strip_spec line) as (l & r & Heq & Hl & Hr & Hf & Hla).
  split; [done|]. split; [done|]. split; [done|].
  exists line, l, r. done.
Qed.

Lemma stdin_identifiers_trimmed_witness :
  "b" ∈ stdin_identifiers (readlines sample_input)
  ∧ no_space (first_char "b") = true.
Proof.
  assert (Hin : "b" ∈ stdin_identifiers (readlines sample_input)).
  { assert (E : stdin_identifiers (readlines sample_input) = ["a"; "b"]) by (by vm_compute).
    rewrite E. right. left. }
  split; [exact Hin|].
  exact (proj1 (proj2 (stdin_identifiers_trimmed _ _ Hin))).
Defined.

Lemma identifiers_loop_no_marker ids stdin :
  "-" ∉ ids → identifiers_loop ids stdin = (ids, stdin).
Proof.
  induction ids as [|id rest IH]; intros Hno; [done|].
  simpl. destruct (String.eqb_spec id "-") as [->|Hne].
  - destruct Hno. left.
  - rewrite IH; [done|]. intros H. apply Hno. by right.
Qed.

Lemma identifiers_loop_drained ids :
  identifiers_loop ids [] = (filter (fun i => i ≠ "-") ids, []).
Proof.
  induction ids as [|id rest IH]; [done|].
  simpl. rewrite IH, filter_cons. destruct (String.eqb_spec id "-") as [->|Hne].
  - by rewrite decide_False by (intros H; by apply H).
  - by rewrite decide_True by done.
Qed.

Lemma identifiers_loop_app pre rest stdin :
  "-" ∉ pre →
  identifiers_loop (pre ++ rest) stdin =
    (pre ++ (identifiers_loop rest stdin).1, (identifiers_loop rest stdin).2).
Proof.
  induction pre as [|id pre IH]; intros Hno.
  - simpl. by destruct (identifiers_loop rest stdin).
  - simpl. destruct (String.eqb_spec id "-") as [->|Hne].
    + destruct Hno. left.
    + rewrite IH; [done|]. intros H. apply Hno. by right.
Qed.

(** X2.  Without the marker [-] among the configured identifiers,
    [cell_identifiers] yields them as they are, duplicates included, and
    reads nothing from standard input. *)
Theorem cell_identifiers_without_marker (cfg : config) (stdin : list string) :
  "-" ∉ identifiers cfg →
  cell_identifiers cfg stdin = (identifiers cfg, stdin).
Proof. apply identifiers_loop_no_marker. Qed.

Lemma cell_identifiers_without_marker_witness :
  ("-" ∉ identifiers listed_config)
  ∧ cell_identifiers listed_config ["c9"] = (["c2"; "c1"; "c2"], ["c9"]).
Proof.
  assert (Hno : "-" ∉ identifiers listed_config).
  { simpl. intros H. repeat (apply elem_of_cons in H as [H|H]; [discriminate|]).
    by apply elem_of_nil in H. }
  split; [exact Hno|].
  exact (cell_identifiers_without_marker listed_config ["c9"] Hno).
Defined.

(** X3.  The first marker [-] takes all of standard input: the identifiers
    before it are yielded as they are, then the trimmed non-blank lines,
    then the identifiers after it except further markers, which find the
    stream at its end and yield nothing. *)
Theorem cell_identifiers_first_marker (cfg : config) (stdin : list string)
    (pre post : list string) :
  identifiers cfg = pre ++ "-" :: post →
  "-" ∉ pre →
  cell_identifiers cfg stdin
  = (pre ++ trimmed_nonblank stdin ++ filter (fun i => i ≠ "-") post, []).
Proof.
  intros Hids Hno. unfold cell_identifiers. rewrite Hids.
  rewrite (identifiers_loop_app _ _ _ Hno). simpl.
  by rewrite identifiers_loop_drained, stdin_identifiers_filter.
Qed.

Lemma cell_identifiers_first_marker_witness :
  identifiers mixed_config = ["c1"] ++ ("-" :: ["c2"; "-"])
  ∧ ("-" ∉ ["c1"])
  ∧ cell_identifiers mixed_config (readlines sample_input)
    = (["c1"; "a"; "b"; "c2"], []).
Proof.
  assert (Hno : "-" ∉ ["c1"]).
  { intros H. apply elem_of_cons in H as [H|H]; [discriminate|]. by apply elem_of_nil in H. }
  split; [reflexivity|]. split; [exact Hno|].
  rewrite (cell_identifiers_first_marker mixed_config (readlines sample_input)
             ["c1"] ["c2"; "-"] eq_refl Hno).
  by vm_compute.
Defined.

(** ** Further properties of include_cell *)

(** X4.  Without a query configured, [include_cell] answers exactly whether
    the configured tags are a subset of the tags of the cell, and has no
    effect: no copy is made and nothing is logged. *)
Theorem include_cell_without_query (p : path) (m : metadata) (cfg : config)
    (w : world) (C : gset string) :
  metadata_jq cfg = None →
  cell_tags (dict_at w (data m)) = Some C →
  include_cell p m cfg w = (Ret (bool_decide (tags cfg ⊆ C)), w).
Proof.
  intros Hq HC. unfold include_cell. run.
  rewrite (verdict_tags _ _ _ HC), Hq. simpl.
  by destruct (bool_decide (tags cfg ⊆ C)).
Qed.

Lemma include_cell_without_query_witness :
  cell_tags (dict_at (world_with (tagged {["web"]})) (data first_cell)) = Some {["web"]}
  ∧ include_cell "a/meta.json" first_cell prod_config (world_with (tagged {["web"]}))
    = (Ret (bool_decide (({["prod"]} : gset string) ⊆ {["web"]})),
       world_with (tagged {["web"]})).
Proof.
  assert (HC : cell_tags (dict_at (world_with (tagged {["web"]})) (data first_cell))
               = Some {["web"]}) by (by vm_compute).
  split; [exact HC|].
  exact (include_cell_without_query "a/meta.json" first_cell prod_config
           (world_with (tagged {["web"]})) {["web"]} eq_refl HC).
Defined.

(** X5.  When the [tags] entry of the document is not a set, the comparison
    with the configured tags raises [TypeError] out of [include_cell], and
    nothing else happens. *)
Theorem include_cell_tags_not_a_set (p : path) (m : metadata) (cfg : config)
    (w : world) (v : value) :
  dict_at w (data m) !! "tags" = Some v →
  (∀ s, v ≠ VSet s) →
  include_cell p m cfg w = (Raise TypeError, w).
Proof.
  intros Hv Hns. unfold include_cell. run.
  rewrite metadata_get_tags, Hv.
  destruct v; simpl; try done. by destruct (Hns s).
Qed.

Lemma include_cell_tags_not_a_set_witness :
  dict_at (world_with listed_tags_doc) (data first_cell) !! "tags"
  = Some (VList [VStr "prod"])
  ∧ include_cell "a/meta.json" first_cell prod_config (world_with listed_tags_doc)
    = (Raise TypeError, world_with listed_tags_doc).
Proof.
  assert (Hv : dict_at (world_with listed_tags_doc) (data first_cell) !! "tags"
               = Some (VList [VStr "prod"])) by (by vm_compute).
  split; [exact Hv|].
  apply (include_cell_tags_not_a_set "a/meta.json" first_cell prod_config
           (world_with listed_tags_doc) (VList [VStr "prod"]) Hv).
  intros s. discriminate.
Defined.

Lemma serializable_dict (d : gmap string value) :
  serializable (VDict d) = true ↔ ∀ k v, d !! k = Some v → serializable v = true.
Proof.
  change (serializable (VDict d))
    with (map_fold (fun (_ : string) x acc => serializable x && acc) true d).
  apply (map_fold_weak_ind
           (fun r (m : gmap string value) =>
              r = true ↔ ∀ k v, m !! k = Some v → serializable v = true)).
  - split; [|done]. intros _ k v H. by rewrite lookup_empty in H.
  - intros i x m r Hi IH. rewrite andb_true_iff, IH. split.
    + intros [Hx Hm] k v. rewrite lookup_insert. case_decide.
      * intros [= <-]. done.
      * apply Hm.
    + intros H. split.
      * apply (H i). by rewrite lookup_insert_eq.
      * intros k v Hk. apply (H k). rewrite lookup_insert_ne; [done|].
        intros ->. congruence.
Qed.

Lemma serializable_strings (l : list string) :
  serializable (VList (VStr <$> l)) = true.
Proof. simpl. induction l as [|s l IH]; [done|]. simpl. exact IH. Qed.

Theorem listified_serializable (d : gmap string value) (C : gset string) :
  cell_tags d = Some C →
  (∀ k v, k ≠ "tags" → d !! k = Some v → serializable v = true) →
  serializable (VDict (listified d)) = true
  ∧ (is_Some (d !! "tags") → serializable (VDict d) = false).
Proof.
  intros HC Hrest. unfold cell_tags, listified in *.
  destruct (d !! "tags") as [t|] eqn:Ht.
  - destruct t; try discriminate. split.
    + apply serializable_dict. intros k v. rewrite lookup_insert. case_decide.
      * intros [= <-]. apply serializable_strings.
      * by apply Hrest.
    + intros _. apply not_true_is_false. intros H.
      by specialize (proj1 (serializable_dict d) H "tags" _ Ht).
  - split.
    + apply serializable_dict. intros k v Hk. apply (Hrest k); [|done].
      intros ->. congruence.
    + intros [? ?]. discriminate.
Qed.

(** X6.  Turning the tags into a list is what lets the query run: when no
    other entry of the document holds a set, the copy is serialised and
    [include_cell] answers by the first output of the query, whereas the
    document itself, with its tag set, is rejected with [TypeError]. *)
Theorem include_cell_runs_query (p : path) (m : metadata) (cfg : config) (w : world)
    (q : value → list jq_item) (C : gset string) (v : value) (rest : list jq_item) :
  metadata_jq cfg = Some q →
  cell_tags (dict_at w (data m)) = Some C →
  tags cfg ⊆ C →
  (∀ k x, k ≠ "tags" → dict_at w (data m) !! k = Some x → serializable x = true) →
  q (VDict (listified (dict_at w (data m)))) = Out v :: rest →
  fst (include_cell p m cfg w)
  = Ret (match v with VBool true => true | _ => false end)
  ∧ (is_Some (dict_at w (data m) !! "tags") →
     jq_first q (VDict (dict_at w (data m))) = Raise TypeError).
Proof.
  intros Hq HC Hsub Hrest Hout.
  destruct (listified_serializable _ _ HC Hrest) as (Hser & Hnot).
  split.
  - rewrite include_cell_fst. unfold verdict.
    rewrite (verdict_tags _ _ _ HC), bool_decide_true by done.
    rewrite Hq, (copy_for_query_listified _ _ HC).
    unfold jq_first. rewrite Hser, Hout.
    by destruct v as [| [|] | | | | | |].
  - intros Htags. unfold jq_first. by rewrite (Hnot Htags).
Qed.

Lemma include_cell_runs_query_witness :
  let w := world_with (tagged {["prod"; "web"]}) in
  cell_tags (dict_at w (data first_cell)) = Some {["prod"; "web"]}
  ∧ fst (include_cell "a/meta.json" first_cell (query_config (says (VBool true))) w)
    = Ret true
  ∧ jq_first (says (VBool true)) (VDict (dict_at w (data first_cell))) = Raise TypeError.
Proof.
  cbv zeta.
  assert (HC : cell_tags (dict_at (world_with (tagged {["prod"; "web"]})) (data first_cell))
               = Some {["prod"; "web"]}) by (by vm_compute).
  assert (Hrest : ∀ k x, k ≠ "tags" →
            dict_at (world_with (tagged {["prod"; "web"]})) (data first_cell) !! k = Some x →
            serializable x = true).
  { intros k x Hk.
    change (dict_at (world_with (tagged {["prod"; "web"]})) (data first_cell))
      with (tagged {["prod"; "web"]}).
    unfold tagged. rewrite lookup_insert_ne by done.
    rewrite lookup_insert. case_decide; [|by rewrite lookup_empty].
    by intros [= <-]. }
  destruct (include_cell_runs_query "a/meta.json" first_cell
              (query_config (says (VBool true))) (world_with (tagged {["prod"; "web"]}))
              (says (VBool true)) {["prod"; "web"]} (VBool true) []
              eq_refl HC (empty_subseteq _) Hrest eq_refl) as (Hres & Hraw).
  split; [exact HC|]. split; [exact Hres|].
  apply Hraw. exists (VSet {["prod"; "web"]}). by vm_compute.
Defined.

(** ** Further properties of the walk *)

Lemma run_eta (r : list item * outcome unit * world) :
  r = (yields_of r, ending_of r, world_of r).
Proof. by destruct r as [[ys e] w]. Qed.

(** X8.  The walk tests the id for truth, not for presence: a document
    whose [id] is empty, zero, false or null is skipped like one without
    id, the filter is not run, and the walk goes on with the next file. *)
Theorem walk_skips_falsy_id (env : environment) (cfg : config) (p : path)
    (rest : list path) (w : world) (d : gmap string value) (v : value) :
  load_file env p = Ret d →
  d !! "id" = Some v →
  truthy v = false →
  walk_loop env cfg (p :: rest) w = walk_loop env cfg rest (loaded w d).
Proof.
  intros H Hv Hf.
  assert (Hid : has_id d = false).
  { unfold has_id. by rewrite metadata_get_id, Hv. }
  rewrite (walk_loop_ret _ _ _ _ _ _ _ (walk_body_no_id _ cfg _ w _ H Hid)).
  simpl. symmetry. apply run_eta.
Qed.

Lemma walk_skips_falsy_id_witness :
  blank_id_doc !! "id" = Some (VStr "")
  ∧ yields_of (walk_loop blank_id_file walk_config ["a/meta.json"] empty_world) = [].
Proof.
  assert (Hv : blank_id_doc !! "id" = Some (VStr "")) by (by vm_compute).
  split; [exact Hv|].
  exact (f_equal yields_of
           (walk_skips_falsy_id blank_id_file walk_config "a/meta.json" []
              empty_world blank_id_doc (VStr "") eq_refl Hv eq_refl)).
Defined.

(** X7.  The [try] block of the walk covers the filter too: when
    [include_cell] raises for a file that loaded and has an id, the file
    is logged as "cannot load metadata" and skipped, and the walk goes on. *)
Theorem walk_swallows_filter_errors (env : environment) (cfg : config) (p : path)
    (rest : list path) (w : world) (d : gmap string value) (e : exn) :
  load_file env p = Ret d →
  has_id d = true →
  verdict cfg d = Raise e →
  walk_loop env cfg (p :: rest) w
  = walk_loop env cfg rest (logged_failure p (snd (walk_body env cfg p w)))
  ∧ load_error p ∈ logs (world_of (walk_loop env cfg (p :: rest) w)).
Proof.
  intros H Hid Hv.
  destruct (walk_body_with_id _ cfg _ w _ H Hid) as (Hfst & _ & _).
  rewrite Hv in Hfst.
  destruct (walk_body env cfg p w) as [r w1] eqn:E. simpl in Hfst. subst r.
  assert (He : is_Exception e = true) by (by eapply verdict_raises_Exception).
  rewrite (walk_loop_skip _ _ _ _ _ _ _ E He). split; [done|].
  eapply elem_of_prefix; [|apply walk_loop_logs].
  unfold logged_failure. simpl. apply elem_of_app. right. left.
Qed.

Lemma walk_swallows_filter_errors_witness :
  verdict silent_walk_config (tagged {["prod"]}) = Raise StopIteration
  ∧ load_error "a/meta.json"
    ∈ logs (world_of (walk_loop one_file silent_walk_config ["a/meta.json"] empty_world)).
Proof.
  assert (Hv : verdict silent_walk_config (tagged {["prod"]}) = Raise StopIteration)
    by (by vm_compute).
  split; [exact Hv|].
  apply (walk_swallows_filter_errors one_file silent_walk_config "a/meta.json" []
           empty_world (tagged {["prod"]}) StopIteration eq_refl); [by vm_compute|exact Hv].
Defined.

(** The walk over two runs of files, one after the other. *)
Lemma walk_loop_app env cfg l1 l2 : ∀ w,
  walk_loop env cfg (l1 ++ l2) w =
    match ending_of (walk_loop env cfg l1 w) with
    | Ret _ =>
        (yields_of (walk_loop env cfg l1 w)
           ++ yields_of (walk_loop env cfg l2 (world_of (walk_loop env cfg l1 w))),
         ending_of (walk_loop env cfg l2 (world_of (walk_loop env cfg l1 w))),
         world_of (walk_loop env cfg l2 (world_of (walk_loop env cfg l1 w))))
    | Raise e => walk_loop env cfg l1 w
    end.
Proof.
  induction l1 as [|p l1 IH]; intros w.
  - simpl. apply run_eta.
  - rewrite <- app_comm_cons.
    destruct (walk_body env cfg p w) as [[it|e] w1] eqn:E.
    + rewrite !(walk_loop_ret _ _ _ _ _ _ _ E). rewrite IH.
      change (ending_of (?a, ?b, ?c)) with b.
      change (yields_of (?a, ?b, ?c)) with a.
      change (world_of (?a, ?b, ?c)) with c.
      destruct (ending_of (walk_loop env cfg l1 w1)) as [[]|e] eqn:He.
      * change (ending_of (?a, ?b, ?c)) with b.
        change (yields_of (?a, ?b, ?c)) with a.
        change (world_of (?a, ?b, ?c)) with c.
        by rewrite app_assoc.
      * by rewrite He.
    + destruct (is_Exception e) eqn:He.
      * rewrite !(walk_loop_skip _ _ _ _ _ _ _ E He). apply IH.
      * by rewrite !(walk_loop_abort _ _ _ _ _ _ _ E He).
Qed.

(** X9.  Only [Exception]s are swallowed: when loading a file raises
    [KeyboardInterrupt] or [SystemExit], [selected_cells] ends with it;
    the files before it have given their results, the files after it are
    not visited and no identifier is resolved. *)
Theorem walk_stops_on_base_exception (env : environment) (cfg : config) (w : world)
    (pre rest : list path) (p : path) (e : exn) :
  all_cells cfg = true →
  glob_meta env = pre ++ p :: rest →
  (∀ q e', q ∈ pre → load_file env q = Raise e' → is_Exception e' = true) →
  load_file env p = Raise e →
  is_Exception e = false →
  ending_of (selected_cells env cfg w) = Raise e
  ∧ (yields_of (selected_cells env cfg w)).*1
    = filter (fun q => selected env cfg q = true) pre.
Proof.
  intros Hall Hglob Hpre Hfail He.
  unfold selected_cells. rewrite (walk_branch_on _ _ _ Hall), Hglob.
  set (w0 := (log Info "searching for cells" (Some ".") w).2).
  rewrite walk_loop_app.
  destruct (walk_loop_selected env cfg pre Hpre w0) as (Hend & Hys).
  rewrite Hend.
  rewrite (walk_loop_abort _ _ _ _ _ _ _ (walk_body_failed env cfg p _ e Hfail) He).
  change (ending_of (?a, ?b, ?c)) with b.
  change (yields_of (?a, ?b, ?c)) with a.
  change (world_of (?a, ?b, ?c)) with c.
  rewrite app_nil_r.
  change (ending_of (?a, ?b, ?c)) with b.
  change (yields_of (?a, ?b, ?c)) with a.
  split; [|exact Hys].
  by destruct e.
Qed.

Lemma walk_stops_on_base_exception_witness :
  load_file interrupted_files "b/meta.json" = Raise KeyboardInterrupt
  ∧ ending_of (selected_cells interrupted_files walk_config empty_world)
    = Raise KeyboardInterrupt
  ∧ (yields_of (selected_cells interrupted_files walk_config empty_world)).*1
    = ["a/meta.json"].
Proof.
  assert (Hpre : ∀ q e', q ∈ ["a/meta.json"] →
            load_file interrupted_files q = Raise e' → is_Exception e' = true).
  { intros q e' Hq. apply list_elem_of_singleton in Hq. subst q. discriminate. }
  destruct (walk_stops_on_base_exception interrupted_files walk_config empty_world
              ["a/meta.json"] ["c/meta.json"] "b/meta.json" KeyboardInterrupt
              eq_refl eq_refl Hpre eq_refl eq_refl) as (Hend & Hys).
  split; [reflexivity|]. split; [exact Hend|].
  rewrite Hys. by vm_compute.
Defined.

(** ** Further properties of selected_cells *)

Lemma resolve_loop_ret env cfg id rest w it w1 :
  resolve_body env cfg id w = (Ret it, w1) →
  resolve_loop env cfg (id :: rest) w =
    (option_list it ++ yields_of (resolve_loop env cfg rest w1),
     ending_of (resolve_loop env cfg rest w1),
     world_of (resolve_loop env cfg rest w1)).
Proof.
  intros H. simpl. rewrite H.
  by destruct (resolve_loop env cfg rest w1) as [[ys r] w2].
Qed.

Lemma resolve_loop_raise env cfg id rest w e w1 :
  resolve_body env cfg id w = (Raise e, w1) →
  resolve_loop env cfg (id :: rest) w = ([], Raise e, w1).
Proof. intros H. simpl. by rewrite H. Qed.

Lemma found_world_created w p d : created (found_world w p d) = created w.
Proof. done. Qed.

Lemma resolve_body_world env cfg id w :
  created (snd (resolve_body env cfg id w)) = created w
  ∧ logs w `prefix_of` logs (snd (resolve_body env cfg id w))
  ∧ ∀ l, is_Some (heap w !! l) →
         heap (snd (resolve_body env cfg id w)) !! l = heap w !! l.
Proof.
  destruct (lookup_cell env id) as [[p d]|] eqn:H.
  - rewrite (resolve_body_found _ _ _ _ _ _ H).
    set (m := {| data := fresh (dom (heap w)) |}).
    pose proof (include_cell_created p m cfg (found_world w p d)) as Hc.
    pose proof (include_cell_logs p m cfg (found_world w p d)) as Hl.
    pose proof (include_cell_heap_frame p m cfg (found_world w p d)) as Hh.
    assert (Hw : logs w `prefix_of` logs (found_world w p d))
      by (by apply prefix_app_r).
    assert (Hheap : ∀ l, is_Some (heap w !! l) →
              heap (include_cell p m cfg (found_world w p d)).2 !! l = heap w !! l).
    { intros l Hl'. rewrite Hh by (by rewrite found_world_other).
      by apply found_world_other. }
    destruct (include_cell p m cfg (found_world w p d)) as [[b|e] w2]; simpl in *;
      (split; [done|]); (split; [by etrans|done]).
  - rewrite (resolve_body_missing _ _ _ _ H). done.
Qed.

Lemma resolve_loop_world env cfg ids : ∀ w,
  created (world_of (resolve_loop env cfg ids w)) = created w
  ∧ logs w `prefix_of` logs (world_of (resolve_loop env cfg ids w))
  ∧ ∀ l, is_Some (heap w !! l) →
         heap (world_of (resolve_loop env cfg ids w)) !! l = heap w !! l.
Proof.
  induction ids as [|id rest IH]; intros w; [done|].
  destruct (resolve_body_world env cfg id w) as (Hc & Hl & Hh).
  destruct (resolve_body env cfg id w) as [[it|e] w1] eqn:E; simpl in Hc, Hl, Hh.
  - rewrite (resolve_loop_ret _ _ _ _ _ _ _ E).
    change (world_of (?a, ?b, ?c)) with c.
    destruct (IH w1) as (Hc' & Hl' & Hh').
    split; [congruence|]. split; [by etrans|].
    intros l Hsome. rewrite Hh'; [by apply Hh|]. by rewrite Hh.
  - rewrite (resolve_loop_raise _ _ _ _ _ _ _ E). done.
Qed.

Lemma walk_body_created env cfg p w :
  created (snd (walk_body env cfg p w)) = created w.
Proof.
  destruct (walk_body_cases env cfg p w)
    as [(e & _ & ->)|[(d & _ & _ & ->)|(d & H & Hid)]]; simpl; try done.
  rewrite (walk_body_with_id_eq _ _ _ _ _ H Hid).
  pose proof (include_cell_created p {| data := fresh (dom (heap w)) |} cfg
                (found_world w p d)) as Hc.
  by destruct (include_cell _ _ _ _) as [[b|e] w2].
Qed.

Lemma walk_loop_created env cfg paths : ∀ w,
  created (world_of (walk_loop env cfg paths w)) = created w.
Proof.
  induction paths as [|p rest IH]; intros w; [done|].
  pose proof (walk_body_created env cfg p w) as Hb.
  destruct (walk_body env cfg p w) as [[it|e] w1] eqn:E; simpl in Hb.
  - rewrite (walk_loop_ret _ _ _ _ _ _ _ E).
    change (world_of (?a, ?b, ?c)) with c. by rewrite IH.
  - destruct (is_Exception e) eqn:He.
    + rewrite (walk_loop_skip _ _ _ _ _ _ _ E He). by rewrite IH.
    + by rewrite (walk_loop_abort _ _ _ _ _ _ _ E He).
Qed.

Lemma walk_branch_world env cfg w :
  created (world_of (walk_branch env cfg w)) = created w
  ∧ logs w `prefix_of` logs (world_of (walk_branch env cfg w))
  ∧ ∀ l, is_Some (heap w !! l) →
         heap (world_of (walk_branch env cfg w)) !! l = heap w !! l.
Proof.
  unfold walk_branch. destruct (all_cells cfg); [|done].
  split; [by rewrite walk_loop_created|]. split.
  - etrans; [|apply walk_loop_logs]. by apply prefix_app_r.
  - intros l Hl. by rewrite walk_loop_heap.
Qed.

Lemma selected_cells_world env cfg w :
  created (world_of (selected_cells env cfg w)) = created w
  ∧ logs w `prefix_of` logs (world_of (selected_cells env cfg w))
  ∧ ∀ l, is_Some (heap w !! l) →
         heap (world_of (selected_cells env cfg w)) !! l = heap w !! l.
Proof.
  destruct (walk_branch_world env cfg w) as (Hc & Hl & Hh).
  unfold selected_cells.
  destruct (walk_branch env cfg w) as [[ys1 [[]|e]] w1]; [|done].
  change (world_of (?a, ?b, ?c)) with c in Hc, Hl, Hh.
  destruct (resolve_loop_world env cfg (cell_identifiers cfg (stdin_lines env)).1 w1)
    as (Hc' & Hl' & Hh').
  destruct (resolve_loop env cfg _ w1) as [[ys2 r] w2].
  change (world_of (?a, ?b, ?c)) with c in *.
  split; [congruence|]. split; [by etrans|].
  intros l Hsome. rewrite Hh'; [by apply Hh|]. by rewrite Hh.
Qed.

(** X10.  No run of [selected_cells] calls [new_cell]: the only call site
    is reached through the unbound name [line]. *)
Theorem selected_cells_never_creates (env : environment) (cfg : config) (w : world) :
  created (world_of (selected_cells env cfg w)) = created w.
Proof. apply selected_cells_world. Qed.

(** X11.  [selected_cells] changes no object that existed before the run
    (it only adds the documents it loads and the copies made for the
    query), and only appends to the log. *)
Theorem selected_cells_keeps_store (env : environment) (cfg : config) (w : world)
    (l : loc) :
  is_Some (heap w !! l) →
  heap (world_of (selected_cells env cfg w)) !! l = heap w !! l
  ∧ logs w `prefix_of` logs (world_of (selected_cells env cfg w)).
Proof.
  intros Hl. destruct (selected_cells_world env cfg w) as (_ & Hlogs & Hheap).
  split; [by apply Hheap|done].
Qed.

Lemma selected_cells_keeps_store_witness :
  is_Some (heap (world_with (tagged {["web"]})) !! 1%positive)
  ∧ heap (world_of (selected_cells store_with_x busy_config (world_with (tagged {["web"]}))))
      !! 1%positive
    = heap (world_with (tagged {["web"]})) !! 1%positive.
Proof.
  assert (Hs : is_Some (heap (world_with (tagged {["web"]})) !! 1%positive)).
  { exists (VDict (tagged {["web"]})). by vm_compute. }
  split; [exact Hs|].
  exact (proj1 (selected_cells_keeps_store store_with_x busy_config
                  (world_with (tagged {["web"]})) 1%positive Hs)).
Defined.

Lemma resolve_loop_known env cfg ids :
  Forall (answered env cfg) ids →
  ∀ w, ending_of (resolve_loop env cfg ids w) = Ret tt
       ∧ (yields_of (resolve_loop env cfg ids w)).*1 = omap (resolved_path env cfg) ids.
Proof.
  induction 1 as [|id rest (p & d & b & Hfound & Hv) _ IH]; intros w; [done|].
  pose proof (resolve_body_found_fst env cfg id w p d Hfound) as Hfst.
  rewrite Hv in Hfst.
  destruct (resolve_body env cfg id w) as [r w1] eqn:E. simpl in Hfst. subst r.
  rewrite (resolve_loop_ret _ _ _ _ _ _ _ E).
  change (ending_of (?a, ?b, ?c)) with b.
  change (yields_of (?a, ?b, ?c)) with a.
  destruct (IH w1) as (Hend & Hys). split; [done|].
  rewrite fmap_app, Hys. simpl.
  unfold resolved_path at 2. rewrite Hfound. unfold passes. rewrite Hv.
  by destruct b.
Qed.

(** X12.  Without [all_cells], when the store knows every identifier and
    the filter answers for each document, [selected_cells] ends normally
    and yields, in the order of the identifiers and once per occurrence,
    the cells whose documents pass the filter. *)
Theorem selected_cells_known_identifiers (env : environment) (cfg : config)
    (w : world) :
  all_cells cfg = false →
  Forall (answered env cfg) (cell_identifiers cfg (stdin_lines env)).1 →
  ending_of (selected_cells env cfg w) = Ret tt
  ∧ (yields_of (selected_cells env cfg w)).*1
    = omap (resolved_path env cfg) (cell_identifiers cfg (stdin_lines env)).1.
Proof.
  intros Hall Hknown. unfold selected_cells. rewrite (walk_branch_off _ _ _ Hall).
  destruct (resolve_loop_known env cfg _ Hknown w) as (Hend & Hys).
  destruct (resolve_loop env cfg _ w) as [[ys r] w2].
  change (ending_of (?a, ?b, ?c)) with b in *.
  change (yields_of (?a, ?b, ?c)) with a in *.
  subst r. done.
Qed.

Lemma selected_cells_known_identifiers_witness :
  (cell_identifiers stdin_prod_config (stdin_lines two_cells)).1 = ["c1"; "c2"; "c1"]
  ∧ ending_of (selected_cells two_cells stdin_prod_config empty_world) = Ret tt
  ∧ (yields_of (selected_cells two_cells stdin_prod_config empty_world)).*1
    = ["c1/meta.json"; "c1/meta.json"].
Proof.
  assert (Hids : (cell_identifiers stdin_prod_config (stdin_lines two_cells)).1
                 = ["c1"; "c2"; "c1"]) by (by vm_compute).
  assert (Hknown : Forall (answered two_cells stdin_prod_config)
                     (cell_identifiers stdin_prod_config (stdin_lines two_cells)).1).
  { rewrite Hids. repeat constructor.
    - exists "c1/meta.json", (tagged {["prod"]}), true. split; [done|by vm_compute].
    - exists "other/meta.json", (tagged {["web"]}), false. split; [done|by vm_compute].
    - exists "c1/meta.json", (tagged {["prod"]}), true. split; [done|by vm_compute]. }
  destruct (selected_cells_known_identifiers two_cells stdin_prod_config empty_world
              eq_refl Hknown) as (Hend & Hys).
  split; [exact Hids|]. split; [exact Hend|].
  rewrite Hys, Hids. by vm_compute.
Defined.

(** ** Further properties of AddSet *)

(** X13.  When the destination attribute is missing or holds no set, the
    action raises [AttributeError] at the first occurrence and changes
    nothing. *)
Theorem AddSet_without_set (self : action) (namespace : gmap string loc)
    (v : string) (rest : list string) (w : world) :
  (∀ l s, namespace !! dest self = Some l → heap w !! l ≠ Some (VSet s)) →
  AddSet_call self namespace v w = (Raise AttributeError, w)
  ∧ AddSet_occurrences self namespace (v :: rest) w = (Raise AttributeError, w).
Proof.
  intros H.
  assert (E : AddSet_call self namespace v w = (Raise AttributeError, w)).
  { unfold AddSet_call. destruct (namespace !! dest self) as [l|] eqn:Hd; [|done].
    destruct (heap w !! l) as [[]|] eqn:Hs; try done. by destruct (H l s eq_refl). }
  split; [exact E|].
  change (AddSet_occurrences self namespace (v :: rest) w)
    with (match AddSet_call self namespace v w with
          | (Ret _, w') => AddSet_occurrences self namespace rest w'
          | (Raise e, w') => (Raise e, w')
          end).
  by rewrite E.
Qed.

Lemma AddSet_without_set_witness :
  heap none_world !! 1%positive = Some VNone
  ∧ AddSet_occurrences tag_action tag_namespace ["prod"; "web"] none_world
    = (Raise AttributeError, none_world).
Proof.
  assert (Hn : heap none_world !! 1%positive = Some VNone) by (by vm_compute).
  split; [exact Hn|].
  apply (AddSet_without_set tag_action tag_namespace "prod" ["web"] none_world).
  intros l s Hl. assert (l = 1%positive) as -> by (vm_compute in Hl; congruence).
  intros E. pose proof (eq_trans (eq_sym Hn) E) as Hbad. discriminate Hbad.
Defined.

(** X14.  The action changes the set object, not the namespace: a second
    namespace bound to the same object (a shared default) starts from the
    values the first left, and parsing in two steps amounts to parsing all
    the occurrences at once. *)
Theorem AddSet_shared_destination (self : action) (ns1 ns2 : gmap string loc)
    (occs1 occs2 : list string) (w : world) (l : loc) (s : gset string) :
  ns1 !! dest self = Some l →
  ns2 !! dest self = Some l →
  heap w !! l = Some (VSet s) →
  let w1 := snd (AddSet_occurrences self ns1 occs1 w) in
  let w2 := snd (AddSet_occurrences self ns2 occs2 w1) in
  heap w2 !! l = Some (VSet (list_to_set occs2 ∪ (list_to_set occs1 ∪ s)))
  ∧ w2 = snd (AddSet_occurrences self ns1 (occs1 ++ occs2) w).
Proof.
  intros H1 H2 Hs w1 w2. subst w1 w2.
  rewrite (AddSet_occurrences_set _ _ occs1 _ _ _ H1 Hs). cbn [snd].
  assert (Hs1 : heap (set_heap (<[l:=VSet (list_to_set occs1 ∪ s)]> (heap w)) w) !! l
                = Some (VSet (list_to_set occs1 ∪ s))) by apply lookup_insert_eq.
  rewrite (AddSet_occurrences_set _ _ occs2 _ _ _ H2 Hs1). cbn [snd].
  rewrite (AddSet_occurrences_set _ _ (occs1 ++ occs2) _ _ _ H1 Hs). cbn [snd].
  unfold set_heap. cbn [heap logs created]. rewrite insert_insert_eq.
  split; [apply lookup_insert_eq|].
  assert (Hset : list_to_set (occs1 ++ occs2) ∪ s
                 = list_to_set occs2 ∪ (list_to_set occs1 ∪ s) :> gset string).
  { rewrite list_to_set_app_L. set_solver. }
  by rewrite Hset.
Qed.

Lemma AddSet_shared_destination_witness :
  tag_namespace !! dest tag_action = Some 1%positive
  ∧ second_namespace !! dest tag_action = Some 1%positive
  ∧ heap (snd (AddSet_occurrences tag_action second_namespace ["web"]
                 (snd (AddSet_occurrences tag_action tag_namespace ["prod"] tag_world))))
      !! 1%positive
    = Some (VSet (list_to_set ["web"] ∪ (list_to_set ["prod"] ∪ ∅))).
Proof.
  assert (H1 : tag_namespace !! dest tag_action = Some 1%positive) by (by vm_compute).
  assert (H2 : second_namespace !! dest tag_action = Some 1%positive) by (by vm_compute).
  assert (Hs : heap tag_world !! 1%positive = Some (VSet ∅)) by (by vm_compute).
  split; [exact H1|]. split; [exact H2|].
  exact (proj1 (AddSet_shared_destination tag_action tag_namespace second_namespace
                  ["prod"] ["web"] tag_world 1%positive ∅ H1 H2 Hs)).
Defined.
